(** * Sereal (Ruby binding): the buffer/cursor engine of [ruby/ext/sereal/buffer.h]

    A shallow embedding of the growable byte buffer [sereal_t] and of the
    functions of [buffer.h] that append to it, read from it, refill it from
    a descriptor and compact it, followed by the properties of the
    specification checked against that embedding.

    Conventions.
    - A [u32] of the C code is a [Z]; every C addition and subtraction on
      [u32] is written with its reduction modulo 2^32 ([u32]).
    - A heap block is the list of its bytes; the length of the list is the
      number of bytes that were allocated.  [NULL] is [None].
    - The C code runs in a small monad: a call returns normally with a value
      and a new world ([Ret]), leaves through [s_raise] with a Ruby exception
      ([Raise]), or touches memory outside a block ([Undef], undefined
      behaviour in C).
    - What the code asks of the allocator and of [read(2)] is recorded in a
      trace, newest event first. *)

From Stdlib Require Import ZArith List Lia Bool.
From Stdlib.Strings Require Import Byte.
Import ListNotations.
Open Scope Z_scope.

(** ** Machine integers *)

Definition U32_MOD : Z := 4294967296.

(** Conversion to [u32]: reduction modulo 2^32. *)
Definition u32 (x : Z) : Z := x mod U32_MOD.

Definition is_u32 (x : Z) : Prop := 0 <= x < U32_MOD.

(** Splitting a conjunction into its parts, and nothing else. *)
Ltac split_and := repeat match goal with |- _ /\ _ => split end.

(** Linear arithmetic with the bound 2^32 spelled out. *)
Ltac u32_lia := unfold is_u32, U32_MOD in *; lia.

(** ** The buffer structure

    [sereal.h] (which declares [sereal_t]) is not part of the sources at
    hand; the fields below are the ones [buffer.h] uses, with the types its
    local copies give them ([u32 pos = s->pos], [u32 size = s->size + ...]). *)

Record sereal_t : Type := mk_sereal {
  data    : option (list byte);  (* u8 *data, NULL or a heap block *)
  size    : Z;                   (* u32 size: bytes holding content *)
  pos     : Z;                   (* u32 pos: the cursor *)
  rsize   : Z;                   (* u32 rsize: bytes reserved *)
  flags   : Z;                   (* flag bits *)
  fd      : Z;                   (* int fd: descriptor of a stream *)
  tracked : option Z             (* VALUE tracked, Qnil is None *)
}.

Definition set_data (d : option (list byte)) (s : sereal_t) : sereal_t :=
  mk_sereal d (size s) (pos s) (rsize s) (flags s) (fd s) (tracked s).
Definition set_size (n : Z) (s : sereal_t) : sereal_t :=
  mk_sereal (data s) n (pos s) (rsize s) (flags s) (fd s) (tracked s).
Definition set_pos (n : Z) (s : sereal_t) : sereal_t :=
  mk_sereal (data s) (size s) n (rsize s) (flags s) (fd s) (tracked s).
Definition set_rsize (n : Z) (s : sereal_t) : sereal_t :=
  mk_sereal (data s) (size s) (pos s) n (flags s) (fd s) (tracked s).

(** Projections of updated structures, and nothing else. *)
Ltac simpl_fields :=
  cbn [data size pos rsize flags fd tracked
       set_data set_size set_pos set_rsize] in *.

(** ** The world around the structure *)

(** What the next [read(2)] on the descriptor finds: an error, or bytes that
    are ready (none at all is end of data). *)
Inductive chunk : Type :=
| ReadError
| Ready (bs : list byte).

Inductive event : Type :=
| EvAlloc (n : Z)            (* realloc/malloc granted [n] bytes *)
| EvFree                     (* free *)
| EvRead (count rc : Z).     (* read(fd, buf, count) returned rc *)

Record world : Type := mk_world {
  buf   : sereal_t;
  input : list chunk;
  trace : list event
}.

Definition with_buf (s : sereal_t) (w : world) : world :=
  mk_world s (input w) (trace w).

Ltac simpl_world := cbn [buf input trace with_buf] in *; simpl_fields.

(** Exceptions raised through [s_raise], with the arguments of their
    messages. *)
Inductive exn : Type :=
| NoMemError (n : Z)                  (* memory allocation failure for n bytes *)
| RangeError_stream (req : Z)         (* stream request for req bytes failed *)
| RangeError_bounds (p req sz : Z).   (* position is out of bounds (p + req > sz) *)

Inductive outcome (A : Type) : Type :=
| Ret (a : A) (w : world)
| Raise (e : exn)
| Undef.
Arguments Ret {A} a w.
Arguments Raise {A} e.
Arguments Undef {A}.

Definition M (A : Type) : Type := world -> outcome A.

Definition ret {A} (a : A) : M A := fun w => Ret a w.

Definition bind {A B} (m : M A) (k : A -> M B) : M B :=
  fun w => match m w with
           | Ret a w' => k a w'
           | Raise e => Raise e
           | Undef => Undef
           end.

Notation "x <- m ;; k" := (bind m (fun x => k))
  (at level 61, m at next level, right associativity).
Notation "m ;;; k" := (bind m (fun _ => k))
  (at level 61, right associativity).

Definition get_s : M sereal_t := fun w => Ret (buf w) w.
Definition modify_s (f : sereal_t -> sereal_t) : M unit :=
  fun w => Ret tt (with_buf (f (buf w)) w).
Definition emit (e : event) : M unit :=
  fun w => Ret tt (mk_world (buf w) (input w) (e :: trace w)).
Definition raise {A} (e : exn) : M A := fun _ => Raise e.
Definition undef {A} : M A := fun _ => Undef.

(** Lifting of a memory access that is undefined outside its block. *)
Definition defined {A} (o : option A) : M A :=
  match o with Some a => ret a | None => undef end.

(** ** Memory blocks *)

Definition blen (b : list byte) : Z := Z.of_nat (length b).

Definition block_len (d : option (list byte)) : Z :=
  match d with None => 0 | Some b => blen b end.

(** [slice b off n]: the [n] bytes of [b] from index [off]. *)
Definition slice (b : list byte) (off n : Z) : list byte :=
  firstn (Z.to_nat n) (skipn (Z.to_nat off) b).

(** Reading [n] bytes through the pointer [p + off]; undefined when [p] is
    NULL or the range leaves the block. *)
Definition load (p : option (list byte)) (off n : Z) : option (list byte) :=
  match p with
  | None => None
  | Some b =>
      if (0 <=? off) && (0 <=? n) && (off + n <=? blen b)
      then Some (slice b off n) else None
  end.

(** [COPY(src, dst, len)] of the C code is a [memcpy] of [len] bytes from
    [src] to [dst]; here both pointers are a block and an offset into it,
    and the result is the destination block after the copy. *)
Definition COPY (src : option (list byte)) (soff : Z)
                (dst : option (list byte)) (doff : Z) (len : Z)
  : option (list byte) :=
  match load src soff len, dst with
  | Some bs, Some d =>
      if (0 <=? doff) && (doff + len <=? blen d)
      then Some (firstn (Z.to_nat doff) d ++ bs ++ skipn (Z.to_nat (doff + len)) d)
      else None
  | _, _ => None
  end.

Section Platform.

(** Whether the allocator grants a request: it may depend on everything that
    happened before (the number of events so far) and on the byte count. *)
Variable alloc_ok : nat -> Z -> bool.

(** The content of memory that was allocated and not written yet. *)
Variable junk : nat -> byte.

(** Constants of the missing [sereal.h]. *)
Variable FLAG_STREAM : Z.
Variable sizeof_sereal_t : Z.

(** [sizeof(long double)] depends on the platform. *)
Variable sizeof_long_double : Z.

Definition fresh (n : nat) : list byte := map junk (seq 0 n).

(** [realloc(p, n)]: the old content up to [n] bytes, then fresh bytes. *)
Definition resize (p : option (list byte)) (n : Z) : list byte :=
  let old := match p with None => [] | Some b => b end in
  firstn (Z.to_nat n) old ++ fresh (Z.to_nat n - length old).

(** ** The functions of [buffer.h] *)

Definition s_realloc_or_raise (p : option (list byte)) (n : Z) : M (list byte) :=
  fun w =>
    if alloc_ok (length (trace w)) n
    then (emit (EvAlloc n) ;;; ret (resize p n)) w
    else Raise (NoMemError n).

Definition s_alloc_or_raise (n : Z) : M (list byte) :=
  s_realloc_or_raise None n.

Definition free : M unit := emit EvFree.

Definition s_create : M unit :=
  _ <- s_alloc_or_raise sizeof_sereal_t ;;
  modify_s (fun _ => mk_sereal None 0 0 0 0 0 None).

Definition s_alloc (len : Z) : M unit :=
  s <- get_s ;;
  if rsize s >? u32 (size s + len) then ret tt
  else
    let sz := u32 (size s + len + 512) in
    b <- s_realloc_or_raise (data s) sz ;;
    modify_s (set_data (Some b)) ;;;
    modify_s (set_rsize sz).

Definition s_append (suffix : list byte) (s_len : Z) : M unit :=
  s_alloc s_len ;;;
  s <- get_s ;;
  d <- defined (COPY (Some suffix) 0 (data s) (size s) s_len) ;;
  modify_s (set_data (Some d)) ;;;
  modify_s (fun s => set_size (u32 (size s + s_len)) s) ;;;
  modify_s (fun s => set_pos (u32 (pos s + s_len)) s).

Definition s_append_u8 (b : byte) : M unit :=
  s_append [b] 1.

(** [read(fd, b, count)] on the descriptor of the stream.  The kernel hands
    over at most [count] bytes of what is ready, and never more than
    0x7ffff000 of them, so that the result fits the [int rc] of the caller;
    bytes that were not taken stay ready for the next call.  Writing more
    bytes than the block [b] has is undefined. *)
Definition READ_MAX : Z := 2147479552.

Definition sys_read (b : list byte) (count : Z) : M (Z * list byte) :=
  fun w =>
    match input w with
    | [] => Ret (0, b) (mk_world (buf w) [] (EvRead count 0 :: trace w))
    | ReadError :: rest =>
        Ret (-1, b) (mk_world (buf w) rest (EvRead count (-1) :: trace w))
    | Ready bs :: rest =>
        let k := Z.to_nat (Z.min (Z.min count READ_MAX) (blen bs)) in
        let rest' := match skipn k bs with
                     | [] => rest
                     | later => Ready later :: rest
                     end in
        if Z.of_nat k <=? blen b
        then Ret (Z.of_nat k, firstn k bs ++ skipn k b)
                 (mk_world (buf w) rest' (EvRead count (Z.of_nat k) :: trace w))
        else Undef
    end.

(** One turn of the [while] loop of [s_read_stream]: [Some rv] when the turn
    leaves the function with [return rv], [None] when it falls through to
    the next test of the loop condition. *)
Definition s_read_stream_iter (end_ : Z) : M (option Z) :=
  s <- get_s ;;
  let req := u32 (end_ - size s) in
  b <- s_alloc_or_raise (u32 (size s - req)) ;;
  r <- sys_read b req ;;
  let rc := fst r in
  if rc <=? 0 then
    free ;;; ret (Some (-1))
  else
    s_append (snd r) (u32 rc) ;;;
    free ;;;
    ret None.

(** The loop itself, by recursion on a number of turns; [None] when the
    turns are used up before the loop ends. *)
Fixpoint s_read_stream_loop (fuel : nat) (end_ : Z) (w : world)
  : option (outcome (option Z)) :=
  match fuel with
  | O => None
  | S fuel' =>
      if size (buf w) <? end_ then
        match s_read_stream_iter end_ w with
        | Ret None w' => s_read_stream_loop fuel' end_ w'
        | Ret (Some rv) w' => Some (Ret (Some rv) w')
        | Raise e => Some (Raise e)
        | Undef => Some Undef
        end
      else Some (Ret None w)
  end.

(** Bytes the stream still holds; every turn that goes on takes at least
    one of them, so one turn more than that is always enough
    ([s_read_stream_loop_total]). *)
Fixpoint pending (i : list chunk) : nat :=
  match i with
  | [] => O
  | ReadError :: rest => pending rest
  | Ready bs :: rest => (length bs + pending rest)%nat
  end.

Definition s_read_stream (end_ : Z) : M Z :=
  fun w =>
    let pos0 := pos (buf w) in
    match s_read_stream_loop (S (pending (input w))) end_ w with
    | Some (Ret (Some rv) w') => Ret rv w'
    | Some (Ret None w') => (modify_s (set_pos pos0) ;;; ret 1) w'
    | Some (Raise e) => Raise e
    | Some Undef => Undef
    | None => Undef
    end.

(** The pointer [&s->data[p]] is returned as the offset [p] into [s->data]. *)
Definition s_get_p_at_pos (p req : Z) : M Z :=
  s <- get_s ;;
  (if u32 (p + req) >=? size s then
     if negb (Z.land (flags s) FLAG_STREAM =? 0) then
       rc <- s_read_stream (u32 (p + req + 1)) ;;
       if rc <? 0 then raise (RangeError_stream req) else ret tt
     else
       raise (RangeError_bounds p req (size s))
   else ret tt) ;;;
  ret p.

Definition s_get_p_at_pos_bang (p req : Z) : M Z :=
  r <- s_get_p_at_pos p req ;;
  modify_s (fun s => set_pos (u32 (pos s + req)) s) ;;;
  ret r.

Definition s_end_p : M Z :=
  s <- get_s ;; s_get_p_at_pos (u32 (size s - 1)) 0.

Definition s_get_p_req_inclusive (req : Z) : M Z :=
  s <- get_s ;; s_get_p_at_pos (pos s) (u32 (if req >? 0 then req - 1 else 0)).

Definition s_get_p_req (req : Z) : M Z :=
  s <- get_s ;; s_get_p_at_pos (pos s) (u32 req).

Definition s_get_p : M Z :=
  s <- get_s ;; s_get_p_at_pos (pos s) 0.

(** Dereferencing a pointer returned by the guard as a [T] of [n] bytes:
    the [n] bytes at offset [r] of [s->data], in the order they have in
    memory. *)
Definition deref (r n : Z) : M (list byte) :=
  s <- get_s ;; defined (load (data s) r n).

Definition s_get_u8 : M byte :=
  r <- s_get_p ;;
  v <- deref r 1 ;;
  ret (hd x00 v).

Definition s_get_u8_bang : M byte :=
  r <- s_get_u8 ;;
  modify_s (fun s => set_pos (u32 (pos s + 1)) s) ;;;
  ret r.

Definition sizeof_u8 : Z := 1.
Definition sizeof_u32 : Z := 4.
Definition sizeof_float : Z := 4.
Definition sizeof_double : Z := 8.

Definition s_get_u32_bang : M (list byte) :=
  s <- get_s ;;
  r <- s_get_p_at_pos (pos s) (sizeof_u32 - 1) ;;
  modify_s (fun s => set_pos (u32 (pos s + sizeof_u32)) s) ;;;
  deref r sizeof_u32.

Definition s_get_float_bang : M (list byte) :=
  s <- get_s ;;
  f <- s_get_p_at_pos (pos s) (sizeof_float - 1) ;;
  modify_s (fun s => set_pos (u32 (pos s + sizeof_float)) s) ;;;
  deref f sizeof_float.

Definition s_get_double_bang : M (list byte) :=
  s <- get_s ;;
  d <- s_get_p_at_pos (pos s) (sizeof_double - 1) ;;
  modify_s (fun s => set_pos (u32 (pos s + sizeof_double)) s) ;;;
  deref d sizeof_double.

Definition s_get_long_double_bang : M (list byte) :=
  s <- get_s ;;
  d <- s_get_p_at_pos (pos s) (sizeof_long_double - 1) ;;
  modify_s (fun s => set_pos (u32 (pos s + sizeof_long_double)) s) ;;;
  deref d sizeof_long_double.

Definition s_shift_position_bang (len : Z) : M Z :=
  modify_s (fun s => set_pos (u32 (pos s + len)) s) ;;;
  ret len.

Definition s_shift_left : M unit :=
  s <- get_s ;;
  let left := u32 (size s - pos s) in
  if left =? 0 then
    free ;;;
    modify_s (set_data None) ;;;
    modify_s (set_size 0) ;;;
    modify_s (set_rsize 0)
  else
    b <- s_alloc_or_raise left ;;
    b' <- defined (COPY (data s) (pos s) (Some b) 0 left) ;;
    free ;;;
    modify_s (set_data (Some b')) ;;;
    modify_s (set_size left) ;;;
    modify_s (set_rsize left).

(** ** Well-formed buffers

    The representation invariant of the structure: [rsize] is the number of
    bytes of the block behind [data], the content does not exceed it, and
    the fields hold values of their C type. *)
Record wf (s : sereal_t) : Prop := mk_wf {
  wf_size  : 0 <= size s <= rsize s;
  wf_rsize : rsize s < U32_MOD;
  wf_block : block_len (data s) = rsize s;
  wf_pos   : is_u32 (pos s)
}.

Definition Bounded (s : sereal_t) : Prop := Z.land (flags s) FLAG_STREAM = 0.
Definition Streaming (s : sereal_t) : Prop := Z.land (flags s) FLAG_STREAM <> 0.

(** The bytes that hold content, [data[0 .. size)]. *)
Definition content (s : sereal_t) : list byte :=
  match data s with
  | None => []
  | Some b => slice b 0 (size s)
  end.

(** The five fixed-width advancing reads, by the type they read.  A value
    is returned as the bytes of its object, in memory order: which number
    they stand for is a matter of the platform's byte order and formats. *)
Inductive prim : Type := T_u8 | T_u32 | T_float | T_double | T_long_double.

Definition sizeof (t : prim) : Z :=
  match t with
  | T_u8 => sizeof_u8
  | T_u32 => sizeof_u32
  | T_float => sizeof_float
  | T_double => sizeof_double
  | T_long_double => sizeof_long_double
  end.

Definition s_get_bang (t : prim) : M (list byte) :=
  match t with
  | T_u8 => b <- s_get_u8_bang ;; ret [b]
  | T_u32 => s_get_u32_bang
  | T_float => s_get_float_bang
  | T_double => s_get_double_bang
  | T_long_double => s_get_long_double_bang
  end.

(** ** Sequences of calls

    The operations a caller applies to a buffer, and a run of them from
    left to right that stops at the first call that does not return. *)
Inductive op : Type :=
| Append (b : list byte)            (* s_append *)
| PeekAt (offset length : Z)        (* s_get_p_at_pos *)
| ReadAt (offset length : Z)        (* s_get_p_at_pos_bang *)
| Read (t : prim)                   (* s_get_u8_bang ... s_get_long_double_bang *)
| ShiftCursor (n : Z)               (* s_shift_position_bang *)
| Compact.                          (* s_shift_left *)

Definition run_op (o : op) : M unit :=
  match o with
  | Append b => s_append b (blen b)
  | PeekAt offset length => _ <- s_get_p_at_pos offset length ;; ret tt
  | ReadAt offset length => _ <- s_get_p_at_pos_bang offset length ;; ret tt
  | Read t => _ <- s_get_bang t ;; ret tt
  | ShiftCursor n => _ <- s_shift_position_bang n ;; ret tt
  | Compact => s_shift_left
  end.

Fixpoint run (ops : list op) : M unit :=
  match ops with
  | [] => ret tt
  | o :: rest => run_op o ;;; run rest
  end.

(** The operations that move the cursor only over bytes they wrote or
    checked. *)
Definition keeps_cursor (o : op) : bool :=
  match o with
  | Append _ | PeekAt _ _ | Read _ => true
  | ReadAt _ _ | ShiftCursor _ | Compact => false
  end.

(** A buffer as [s_create] leaves it, whatever its flags and descriptor were
    set to afterwards. *)
Definition created_empty (s : sereal_t) : Prop :=
  data s = None /\ size s = 0 /\ pos s = 0 /\ rsize s = 0.

(** ** Concrete platforms and buffers, for running the functions *)

(** An allocator that grants every request, and fresh memory full of
    zeros. *)
Definition grant_all : nat -> Z -> bool := fun _ _ => true.
Definition zero_fill : nat -> byte := fun _ => x00.

(** A world with the buffer [s], the stream [i] and nothing logged yet. *)
Definition world_of (s : sereal_t) (i : list chunk) : world := mk_world s i [].

(** The buffer [s_create] returns. *)
Definition created : sereal_t := mk_sereal None 0 0 0 0 0 None.

(** A buffer whose block is [blk], of which the first [sz] bytes hold
    content, with the cursor at [p] and the flag bits [fl]. *)
Definition partly (blk : list byte) (sz p fl : Z) : sereal_t :=
  mk_sereal (Some blk) sz p (blen blk) fl 0 None.

(** A buffer that holds the bytes [bs] in a block of exactly their number. *)
Definition holding (bs : list byte) (p fl : Z) : sereal_t :=
  partly bs (blen bs) p fl.

Definition ABCD : list byte := [x41; x42; x43; x44].
Definition WXYZ : list byte := [x57; x58; x59; x5a].

(** ** The rest of [buffer.h] *)

(** The flag of borrowed storage, another constant of the missing
    [sereal.h]. *)
Variable FLAG_NOT_MINE : Z.

Definition Owned (s : sereal_t) : Prop := Z.land (flags s) FLAG_NOT_MINE = 0.
Definition Borrowed (s : sereal_t) : Prop := Z.land (flags s) FLAG_NOT_MINE <> 0.

Definition s_free_data_if_not_mine : M unit :=
  s <- get_s ;;
  if Z.land (flags s) FLAG_NOT_MINE =? 0 then
    (match data s with
     | Some _ => free
     | None => ret tt
     end) ;;;
    modify_s (set_data None)
  else ret tt.

(** The bytes of a [u32] object in memory, in the byte order of the
    platform. *)
Variable u32_bytes : Z -> list byte.

Definition s_append_u32 (b : Z) : M unit :=
  s_append (u32_bytes b) sizeof_u32.

(** The bytes a stream will still hand over, in their order. *)
Fixpoint ready_bytes (i : list chunk) : list byte :=
  match i with
  | [] => []
  | ReadError :: rest => ready_bytes rest
  | Ready bs :: rest => bs ++ ready_bytes rest
  end.


(** The bytes of a [u32] on a little-endian platform. *)
Definition le32 (v : Z) : list byte :=
  map (fun i => match Byte.of_N (Z.to_N ((v / 256 ^ i) mod 256)) with
                | Some b => b
                | None => x00
                end) [0; 1; 2; 3].

(** * Properties *)

(** ** Arithmetic modulo 2^32 and blocks *)

Lemma u32_range x : is_u32 (u32 x).
Proof. unfold is_u32, u32, U32_MOD. apply Z.mod_pos_bound. lia. Qed.

Lemma u32_id x : is_u32 x -> u32 x = x.
Proof. unfold is_u32, u32. intros H. apply Z.mod_small. exact H. Qed.

Lemma u32_wrap_neg x : - U32_MOD <= x < 0 -> u32 x = x + U32_MOD.
Proof.
  unfold u32, U32_MOD. intros H.
  symmetry. apply (Z.mod_unique_pos _ _ (-1)); lia.
Qed.

Lemma blen_nonneg b : 0 <= blen b.
Proof. unfold blen. lia. Qed.

Lemma blen_app a b : blen (a ++ b) = blen a + blen b.
Proof. unfold blen. rewrite length_app. lia. Qed.

Lemma fresh_length n : length (fresh n) = n.
Proof. unfold fresh. now rewrite length_map, length_seq. Qed.

Lemma resize_blen p n : 0 <= n -> blen (resize p n) = n.
Proof.
  intros Hn. unfold resize, blen.
  rewrite length_app, length_firstn, fresh_length. lia.
Qed.

Lemma slice_length b off n :
  0 <= off -> 0 <= n -> off + n <= blen b -> blen (slice b off n) = n.
Proof.
  unfold slice, blen. intros Ho Hn Hb.
  rewrite length_firstn, length_skipn. lia.
Qed.

Lemma slice_resize b off n m :
  0 <= off -> 0 <= n -> off + n <= blen b -> off + n <= m ->
  slice (resize (Some b) m) off n = slice b off n.
Proof.
  unfold slice, resize, blen. intros Ho Hn Hb Hm.
  rewrite skipn_app, firstn_app.
  rewrite length_skipn, length_firstn.
  replace (Z.to_nat n - (Nat.min (Z.to_nat m) (length b) - Z.to_nat off))%nat
    with 0%nat by lia.
  rewrite firstn_O, app_nil_r.
  rewrite skipn_firstn_comm, firstn_firstn.
  f_equal. lia.
Qed.

(** ** [s_alloc] *)

(** The three ways [s_alloc] can go. *)
Lemma s_alloc_eq len w :
  s_alloc len w =
    let s := buf w in
    let sz := u32 (size s + len + 512) in
    if rsize s >? u32 (size s + len) then Ret tt w
    else if alloc_ok (length (trace w)) sz
         then Ret tt (mk_world (set_rsize sz (set_data (Some (resize (data s) sz)) s))
                               (input w) (EvAlloc sz :: trace w))
         else Raise (NoMemError sz).
Proof.
  unfold s_alloc, bind, get_s, s_realloc_or_raise. cbn.
  destruct (rsize (buf w) >? u32 (size (buf w) + len)); [reflexivity|].
  destruct (alloc_ok _ _); reflexivity.
Qed.

(** C5, as amended.  Whenever [s_alloc] returns, [rsize >= size + len];
    growth is skipped exactly when [rsize > size + len], a request of
    [size + len + 512] bytes is what growth asks of the allocator, and at
    [rsize - size = len] the buffer does grow.  All of it for requests whose
    [size + len + 512] is a 32-bit value. *)
Theorem s_alloc_ensures_capacity (w : world) (len : Z) :
  0 <= size (buf w) -> 0 <= len ->
  size (buf w) + len + 512 < U32_MOD ->
  let s := buf w in
  (forall w', s_alloc len w = Ret tt w' ->
     size (buf w') = size s /\ size (buf w') + len <= rsize (buf w')) /\
  (size s + len < rsize s -> s_alloc len w = Ret tt w) /\
  (rsize s <= size s + len ->
     (alloc_ok (length (trace w)) (size s + len + 512) = true ->
      exists w', s_alloc len w = Ret tt w' /\
        trace w' = EvAlloc (size s + len + 512) :: trace w /\
        rsize (buf w') = size s + len + 512 /\
        block_len (data (buf w')) = size s + len + 512) /\
     (alloc_ok (length (trace w)) (size s + len + 512) = false ->
      s_alloc len w = Raise (NoMemError (size s + len + 512)))).
Proof.
  intros Hs Hl Hr s. subst s. rewrite s_alloc_eq. cbv zeta.
  set (s := buf w) in *.
  rewrite !u32_id by u32_lia.
  split; [|split].
  - intros w' E. destruct (Z.gtb_spec (rsize s) (size s + len)).
    + injection E as <-. fold s. split; [reflexivity|lia].
    + destruct (alloc_ok _ _); [|discriminate].
      injection E as <-. cbn. split; [reflexivity|lia].
  - intros H. destruct (Z.gtb_spec (rsize s) (size s + len)); [reflexivity|lia].
  - intros H. destruct (Z.gtb_spec (rsize s) (size s + len)); [lia|].
    split; intros Ha; rewrite Ha; [|reflexivity].
    eexists. split; [reflexivity|]. cbn.
    repeat split. apply resize_blen. lia.
Qed.

(** ** Blocks under [COPY] *)

Lemma load_Some p off n bs :
  load p off n = Some bs ->
  exists b, p = Some b /\ 0 <= off /\ 0 <= n /\ off + n <= blen b /\
            bs = slice b off n.
Proof.
  unfold load. destruct p as [b|]; [|discriminate].
  destruct (Z.leb_spec 0 off); [|discriminate].
  destruct (Z.leb_spec 0 n); [|discriminate].
  destruct (Z.leb_spec (off + n) (blen b)); [|discriminate].
  cbn. intros E. injection E as <-. exists b. auto.
Qed.

Lemma load_in_range b off n :
  0 <= off -> 0 <= n -> off + n <= blen b ->
  load (Some b) off n = Some (slice b off n).
Proof.
  intros Ho Hn Hb. unfold load.
  destruct (Z.leb_spec 0 off); [|lia].
  destruct (Z.leb_spec 0 n); [|lia].
  destruct (Z.leb_spec (off + n) (blen b)); [|lia].
  reflexivity.
Qed.

Lemma COPY_Some src soff dst doff len d' :
  COPY src soff dst doff len = Some d' ->
  exists sb d, src = Some sb /\ dst = Some d /\
    0 <= soff /\ 0 <= len /\ soff + len <= blen sb /\
    0 <= doff /\ doff + len <= blen d /\
    d' = firstn (Z.to_nat doff) d ++ slice sb soff len
           ++ skipn (Z.to_nat (doff + len)) d.
Proof.
  unfold COPY. destruct (load src soff len) as [bs|] eqn:L; [|discriminate].
  destruct dst as [d|]; [|discriminate].
  apply load_Some in L. destruct L as (sb & -> & Ho & Hn & Hb & ->).
  destruct (Z.leb_spec 0 doff); [|discriminate].
  destruct (Z.leb_spec (doff + len) (blen d)); [|discriminate].
  cbn. intros E. injection E as <-. exists sb, d. repeat split; auto.
Qed.

Lemma COPY_in_range sb soff d doff len :
  0 <= soff -> 0 <= len -> soff + len <= blen sb ->
  0 <= doff -> doff + len <= blen d ->
  COPY (Some sb) soff (Some d) doff len =
    Some (firstn (Z.to_nat doff) d ++ slice sb soff len
            ++ skipn (Z.to_nat (doff + len)) d).
Proof.
  intros. unfold COPY. rewrite load_in_range by assumption.
  destruct (Z.leb_spec 0 doff); [|lia].
  destruct (Z.leb_spec (doff + len) (blen d)); [|lia].
  reflexivity.
Qed.

(** The block after a copy of the [n] bytes [bs] at offset [doff]. *)
Section Patched.
Variables (d bs : list byte) (doff n : Z).
Hypothesis Hdoff : 0 <= doff.
Hypothesis Hlen : blen bs = n.
Hypothesis Hfit : doff + n <= blen d.

Let d' := firstn (Z.to_nat doff) d ++ bs ++ skipn (Z.to_nat (doff + n)) d.

Lemma patched_blen : blen d' = blen d.
Proof.
  unfold d', blen in *.
  rewrite !length_app, length_firstn, length_skipn. lia.
Qed.

Lemma patched_prefix m : 0 <= m <= doff -> slice d' 0 m = slice d 0 m.
Proof.
  intros Hm. unfold d', slice, blen in *. cbn [Z.to_nat skipn].
  rewrite firstn_app, firstn_firstn, length_firstn.
  replace (Z.to_nat m - Nat.min (Z.to_nat doff) (length d))%nat with 0%nat by lia.
  rewrite firstn_O, app_nil_r. f_equal. lia.
Qed.

Lemma patched_at : slice d' doff n = bs.
Proof.
  unfold d', slice, blen in *.
  rewrite skipn_app, length_firstn.
  rewrite (skipn_all2 (firstn _ d)) by (rewrite length_firstn; lia).
  replace (Z.to_nat doff - Nat.min (Z.to_nat doff) (length d))%nat with 0%nat by lia.
  cbn [skipn app].
  rewrite firstn_app.
  replace (Z.to_nat n) with (length bs) by lia.
  rewrite firstn_all, Nat.sub_diag, firstn_O.
  apply app_nil_r.
Qed.

Lemma patched_upto : slice d' 0 (doff + n) = slice d 0 doff ++ bs.
Proof.
  unfold d', slice, blen in *. cbn [Z.to_nat skipn].
  rewrite app_assoc, firstn_app.
  rewrite length_app, length_firstn.
  replace (Z.to_nat (doff + n) -
           (Nat.min (Z.to_nat doff) (length d) + length bs))%nat with 0%nat by lia.
  rewrite firstn_O, app_nil_r.
  rewrite firstn_all2; [reflexivity|].
  rewrite length_app, length_firstn. lia.
Qed.
End Patched.

(** ** [s_append] *)

Lemma s_append_eq suffix n w :
  s_append suffix n w =
    match s_alloc n w with
    | Ret _ w1 =>
        let s := buf w1 in
        match COPY (Some suffix) 0 (data s) (size s) n with
        | Some d =>
            Ret tt (with_buf (set_pos (u32 (pos s + n))
                               (set_size (u32 (size s + n))
                                 (set_data (Some d) s))) w1)
        | None => Undef
        end
    | Raise e => Raise e
    | Undef => Undef
    end.
Proof.
  unfold s_append, bind. destruct (s_alloc n w) as [[] w1| |]; try reflexivity.
  unfold get_s, defined. cbn.
  destruct (COPY _ _ _ _ _); reflexivity.
Qed.

(** What [s_alloc] leaves behind when it returns on a well-formed buffer. *)
Lemma s_alloc_ret len w w' :
  wf (buf w) -> s_alloc len w = Ret tt w' ->
  let s := buf w in let s' := buf w' in
  size s' = size s /\ pos s' = pos s /\ flags s' = flags s /\ fd s' = fd s /\
  tracked s' = tracked s /\ input w' = input w /\
  is_u32 (rsize s') /\ block_len (data s') = rsize s' /\
  (forall n, 0 <= n <= size s -> n <= rsize s' ->
     match data s' with Some b' => slice b' 0 n | None => [] end =
     match data s with Some b => slice b 0 n | None => [] end) /\
  (trace w' = trace w \/ exists m, trace w' = EvAlloc m :: trace w).
Proof.
  intros [Hsz Hr Hb Hp]. rewrite s_alloc_eq. cbv zeta.
  set (s := buf w) in *.
  destruct (rsize s >? u32 (size s + len)).
  - intros E. injection E as <-. fold s.
    repeat split; auto; try u32_lia.
  - destruct (alloc_ok _ _); [|discriminate].
    intros E. injection E as <-. cbn.
    pose proof (u32_range (size s + len + 512)) as Hu.
    repeat split; auto; try u32_lia.
    + apply resize_blen. u32_lia.
    + intros n Hn Hn'. destruct (data s) as [b|] eqn:D.
      * apply slice_resize; cbn in Hb; lia.
      * cbn in Hb. assert (n = 0) by lia. subst n.
        unfold slice. reflexivity.
    + right. eexists. reflexivity.
Qed.

(** What [s_append] leaves behind when it returns on a well-formed buffer:
    [s_len] bytes of [suffix] follow the old content, [size] grew by
    [s_len] and [pos] by [s_len] modulo 2^32. *)
Lemma s_append_ret suffix n w w' :
  wf (buf w) -> s_append suffix n w = Ret tt w' ->
  let s := buf w in let s' := buf w' in
  0 <= n <= blen suffix /\
  wf s' /\
  size s' = size s + n /\
  pos s' = u32 (pos s + n) /\
  flags s' = flags s /\ fd s' = fd s /\ input w' = input w /\
  content s' = content s ++ slice suffix 0 n /\
  load (data s') (size s) n = Some (slice suffix 0 n) /\
  (trace w' = trace w \/ exists m, trace w' = EvAlloc m :: trace w).
Proof.
  intros Hwf. rewrite s_append_eq.
  destruct (s_alloc n w) as [[] w1| |] eqn:A; try discriminate.
  apply s_alloc_ret in A; [|assumption]. cbv zeta in *.
  destruct A as (As & Ap & Af & Afd & _ & Ai & Ar & Ab & Apre & Atr).
  destruct Hwf as [Hsz Hr Hb Hp].
  destruct (COPY _ _ _ _ _) as [d'|] eqn:C; [|discriminate].
  apply COPY_Some in C.
  destruct C as (sb & d & Es & Ed & _ & Hn & Hfit & Hoff & Hdfit & ->).
  injection Es as <-. intros E. injection E as <-. simpl_world.
  rewrite Ed in Ab, Apre. cbn in Ab.
  rewrite As in *. rewrite Ap, Af, Afd.
  set (bs := slice suffix 0 n) in *.
  assert (Hbs : blen bs = n) by (apply slice_length; lia).
  assert (Hsz' : u32 (size (buf w) + n) = size (buf w) + n)
    by (apply u32_id; u32_lia).
  rewrite Hsz'.
  split_and; auto; try lia.
  - constructor; cbn;
      [lia | u32_lia | rewrite <- Ab; apply patched_blen; lia | apply u32_range].
  - unfold content. cbn.
    rewrite patched_upto by lia.
    f_equal. specialize (Apre (size (buf w))).
    rewrite Apre by lia. reflexivity.
  - rewrite load_in_range.
    + f_equal. apply patched_at; lia.
    + lia.
    + lia.
    + rewrite patched_blen; lia.
Qed.

Lemma slice_all b : slice b 0 (blen b) = b.
Proof.
  unfold slice, blen. cbn [Z.to_nat skipn].
  rewrite Nat2Z.id. apply firstn_all.
Qed.

(** [s_append] returns whenever the allocator grants what [s_alloc] asks
    for and the new size stays a 32-bit value. *)
Lemma s_append_returns suffix n w :
  wf (buf w) -> 0 <= n <= blen suffix ->
  size (buf w) + n + 512 < U32_MOD ->
  alloc_ok (length (trace w)) (size (buf w) + n + 512) = true ->
  exists w', s_append suffix n w = Ret tt w'.
Proof.
  intros [Hsz Hr Hb Hp] Hn Hfit Ha.
  rewrite s_append_eq, s_alloc_eq. cbv zeta.
  rewrite !u32_id by u32_lia.
  destruct (Z.gtb_spec (rsize (buf w)) (size (buf w) + n)).
  - destruct (data (buf w)) as [d|] eqn:D; cbn in Hb; [|lia].
    rewrite COPY_in_range by lia. eexists. reflexivity.
  - rewrite Ha. simpl_world.
    rewrite COPY_in_range; try lia.
    + eexists. reflexivity.
    + rewrite resize_blen; lia.
Qed.

(** C7, as amended.  On a well-formed buffer with [size = s0], whenever
    [append(b)] returns, [data[s0 .. s0+len(b))] is [b], the content is the
    old content followed by [b], [size] is [s0 + len(b)] and [pos] has grown
    by [len(b)] modulo 2^32, which is [s0 + len(b)] when the cursor stood at
    [s0] before the call; and the call does return when the allocator
    grants the request and [s0 + len(b) + 512] is a 32-bit value. *)
Theorem s_append_correct (w : world) (b : list byte) :
  wf (buf w) ->
  let s := buf w in
  let s0 := size s in
  let n := blen b in
  (forall w', s_append b n w = Ret tt w' ->
     load (data (buf w')) s0 n = Some b /\
     content (buf w') = content s ++ b /\
     size (buf w') = s0 + n /\
     pos (buf w') = u32 (pos s + n) /\
     (pos s = s0 -> pos (buf w') = s0 + n)) /\
  (s0 + n + 512 < U32_MOD ->
   alloc_ok (length (trace w)) (s0 + n + 512) = true ->
   exists w', s_append b n w = Ret tt w').
Proof.
  intros Hwf s s0 n. subst s s0 n. split.
  - intros w' E. apply s_append_ret in E; [|assumption]. cbv zeta in E.
    destruct E as (_ & Hwf' & Es & Ep & _ & _ & _ & Ec & El & _).
    rewrite slice_all in Ec, El.
    split_and; auto.
    intros Hps. rewrite Ep, Hps, <- Es. apply u32_id.
    destruct Hwf' as [? ? ? ?]. u32_lia.
  - intros Hfit Ha. apply s_append_returns; auto.
    pose proof (blen_nonneg b). lia.
Qed.

(** ** [s_shift_position_bang] *)

(** C8.  [s_shift_position_bang] returns [len] on every buffer, Bounded or
    Streaming, with [pos + len] modulo 2^32 as the new cursor and nothing
    else changed: no exception, no access to memory, no read from the
    stream; and there is a well-formed buffer with [pos <= size] that it
    leaves with [pos > size]. *)
Theorem s_shift_position_bang_unchecked :
  (forall (w : world) (len : Z),
     s_shift_position_bang len w =
       Ret len (with_buf (set_pos (u32 (pos (buf w) + len)) (buf w)) w)) /\
  (exists (w w' : world) (len : Z),
     wf (buf w) /\ pos (buf w) <= size (buf w) /\
     s_shift_position_bang len w = Ret len w' /\
     size (buf w') < pos (buf w')).
Proof.
  split.
  - intros w len. reflexivity.
  - exists (mk_world (mk_sereal None 0 0 0 0 0 None) [] []).
    eexists. exists 1. split_and.
    + constructor; cbn; u32_lia.
    + cbn. lia.
    + reflexivity.
    + cbn. lia.
Qed.

(** ** [s_shift_left] *)

Lemma s_shift_left_eq w :
  s_shift_left w =
    let s := buf w in
    let left := u32 (size s - pos s) in
    if left =? 0 then
      Ret tt (mk_world (set_rsize 0 (set_size 0 (set_data None s)))
                       (input w) (EvFree :: trace w))
    else if alloc_ok (length (trace w)) left then
      match COPY (data s) (pos s) (Some (resize None left)) 0 left with
      | Some b' =>
          Ret tt (mk_world (set_rsize left (set_size left (set_data (Some b') s)))
                           (input w) (EvFree :: EvAlloc left :: trace w))
      | None => Undef
      end
    else Raise (NoMemError left).
Proof.
  unfold s_shift_left, bind, get_s. cbv zeta.
  destruct (u32 (size (buf w) - pos (buf w)) =? 0); [reflexivity|].
  unfold s_alloc_or_raise, s_realloc_or_raise, bind.
  destruct (alloc_ok _ _); [|reflexivity]. cbn.
  destruct (COPY _ _ _ _ _); reflexivity.
Qed.

(** The copy into the fresh block of [s_shift_left]. *)
Lemma COPY_into_fresh d p left :
  0 <= p -> 0 < left -> p + left <= blen d ->
  COPY (Some d) p (Some (resize None left)) 0 left = Some (slice d p left).
Proof.
  intros Hp Hl Hfit.
  rewrite COPY_in_range; try lia.
  - cbn [Z.to_nat firstn app]. f_equal.
    rewrite skipn_all2, app_nil_r; [reflexivity|].
    pose proof (resize_blen None left) as R. unfold blen in R. lia.
  - rewrite resize_blen; lia.
Qed.

Lemma slice_slice b p n : 0 <= p -> 0 <= n ->
  slice (slice b 0 (p + n)) p n = slice b p n.
Proof.
  intros Hp Hn. unfold slice. cbn [Z.to_nat skipn].
  rewrite skipn_firstn_comm, firstn_firstn.
  f_equal. lia.
Qed.

Lemma skipn_slice b p s : 0 <= p <= s ->
  skipn (Z.to_nat p) (slice b 0 s) = slice b p (s - p).
Proof.
  intros H. unfold slice. cbn [Z.to_nat skipn].
  rewrite skipn_firstn_comm. f_equal. lia.
Qed.

(** What [s_shift_left] does to a well-formed buffer whose cursor is inside
    the content. *)
Lemma s_shift_left_spec w :
  wf (buf w) -> pos (buf w) <= size (buf w) ->
  let s := buf w in
  let left := size s - pos s in
  (left = 0 ->
     s_shift_left w =
       Ret tt (mk_world (set_rsize 0 (set_size 0 (set_data None s)))
                        (input w) (EvFree :: trace w))) /\
  (0 < left -> alloc_ok (length (trace w)) left = true ->
     exists d, data s = Some d /\
       s_shift_left w =
         Ret tt (mk_world (set_rsize left (set_size left
                            (set_data (Some (slice d (pos s) left)) s)))
                          (input w) (EvFree :: EvAlloc left :: trace w))) /\
  (0 < left -> alloc_ok (length (trace w)) left = false ->
     s_shift_left w = Raise (NoMemError left)).
Proof.
  intros [Hsz Hr Hb Hp] Hps. cbv zeta.
  rewrite s_shift_left_eq. cbv zeta.
  rewrite u32_id by u32_lia.
  split_and.
  - intros H0. rewrite H0. reflexivity.
  - intros Hl Ha. destruct (Z.eqb_spec (size (buf w) - pos (buf w)) 0); [lia|].
    rewrite Ha.
    destruct (data (buf w)) as [d|] eqn:D; cbn in Hb; [|u32_lia].
    exists d. split; [reflexivity|].
    rewrite COPY_into_fresh; [reflexivity| | |]; u32_lia.
  - intros Hl Ha. destruct (Z.eqb_spec (size (buf w) - pos (buf w)) 0); [lia|].
    rewrite Ha. reflexivity.
Qed.

Lemma content_blen s : wf s -> blen (content s) = size s.
Proof.
  intros [Hsz Hr Hb Hp]. unfold content.
  destruct (data s) as [d|]; cbn in Hb.
  - apply slice_length; lia.
  - cbn. lia.
Qed.

(** Whatever the cursor, a compaction that returns leaves a well-formed
    buffer with [size = rsize], and the cursor where it was. *)
Lemma s_shift_left_ret w w' :
  wf (buf w) -> s_shift_left w = Ret tt w' ->
  wf (buf w') /\
  size (buf w') = u32 (size (buf w) - pos (buf w)) /\
  rsize (buf w') = size (buf w') /\
  pos (buf w') = pos (buf w) /\
  flags (buf w') = flags (buf w) /\ fd (buf w') = fd (buf w) /\
  input w' = input w.
Proof.
  intros [Hsz Hr Hb Hp]. rewrite s_shift_left_eq. cbv zeta.
  pose proof (u32_range (size (buf w) - pos (buf w))) as Hu.
  destruct (Z.eqb_spec (u32 (size (buf w) - pos (buf w))) 0) as [E0|N0].
  - intros E. injection E as <-. simpl_world. rewrite E0.
    split_and; auto. constructor; cbn; auto; u32_lia.
  - destruct (alloc_ok _ _); [|discriminate].
    destruct (COPY _ _ _ _ _) as [b'|] eqn:C; [|discriminate].
    intros E. injection E as <-. simpl_world.
    split_and; auto.
    apply COPY_Some in C.
    destruct C as (sb & d & _ & Ed & Hso & Hl & Hsfit & _ & Hdfit & ->).
    injection Ed as <-.
    constructor; simpl_fields; auto; try u32_lia.
    cbn [block_len].
    rewrite (patched_blen _ _ 0 (u32 (size (buf w) - pos (buf w)))); try lia.
    + apply resize_blen. lia.
    + apply slice_length; lia.
Qed.

(** Compaction of a well-formed buffer whose cursor is inside the content,
    with an allocator that grants the residual block. *)
Lemma s_shift_left_moves w :
  wf (buf w) -> pos (buf w) <= size (buf w) ->
  (pos (buf w) < size (buf w) ->
   alloc_ok (length (trace w)) (size (buf w) - pos (buf w)) = true) ->
  let s := buf w in
  exists w',
    s_shift_left w = Ret tt w' /\
    content (buf w') = skipn (Z.to_nat (pos s)) (content s) /\
    size (buf w') = size s - pos s /\
    rsize (buf w') = size s - pos s /\
    pos (buf w') = pos s /\
    (pos s < size s ->
     exists d, data s = Some d /\
               data (buf w') = Some (slice d (pos s) (size s - pos s))) /\
    (pos s = size s ->
     data (buf w') = None /\ trace w' = EvFree :: trace w).
Proof.
  intros Hwf Hps Ha. cbv zeta.
  destruct (s_shift_left_spec w Hwf Hps) as (H0 & Hgo & _). cbv zeta in *.
  destruct Hwf as [Hsz Hr Hb Hp].
  destruct (Z.eq_dec (pos (buf w)) (size (buf w))) as [E|N].
  - eexists. split; [apply H0; lia|]. simpl_world.
    split_and; auto; try lia.
    + unfold content. simpl_fields. destruct (data (buf w)) as [d|]; cbn.
      * rewrite skipn_slice by u32_lia. rewrite E, Z.sub_diag. reflexivity.
      * now rewrite skipn_nil.
  - destruct Hgo as (d & D & E); [lia|apply Ha; lia|].
    eexists. split; [exact E|]. simpl_world.
    split_and; auto; try lia.
    + unfold content. simpl_fields. rewrite D.
      rewrite skipn_slice by u32_lia.
      unfold slice at 1. cbn [Z.to_nat skipn].
      unfold slice. rewrite firstn_firstn. f_equal. lia.
    + intros _. exists d. auto.
Qed.

(** C2, as amended.  On a well-formed buffer with [pos = p <= size = s],
    compaction leaves [data[p .. s)] at the start of a block of [s - p]
    bytes, with [size = rsize = s - p]; the cursor is left at [p].  When
    [p = s] the block is released: [data] is NULL and [size = rsize = 0],
    the cursor still at [p]. *)
Theorem s_shift_left_compacts (w : world) :
  wf (buf w) -> pos (buf w) <= size (buf w) ->
  let s := buf w in
  let p := pos s in
  let sz := size s in
  (p < sz -> alloc_ok (length (trace w)) (sz - p) = true ->
   exists w' d,
     s_shift_left w = Ret tt w' /\
     data s = Some d /\ data (buf w') = Some (slice d p (sz - p)) /\
     content (buf w') = skipn (Z.to_nat p) (content s) /\
     size (buf w') = sz - p /\ rsize (buf w') = sz - p /\
     pos (buf w') = p) /\
  (p = sz ->
   exists w',
     s_shift_left w = Ret tt w' /\
     data (buf w') = None /\ trace w' = EvFree :: trace w /\
     size (buf w') = 0 /\ rsize (buf w') = 0 /\
     pos (buf w') = p).
Proof.
  intros Hwf Hps. cbv zeta. split.
  - intros Hlt Ha.
    destruct (s_shift_left_moves w Hwf Hps (fun _ => Ha))
      as (w' & E & C & S & R & P & Hd & _).
    destruct (Hd Hlt) as (d & D & D').
    exists w', d. auto 10.
  - intros Heq.
    destruct (s_shift_left_moves w Hwf Hps) as (w' & E & C & S & R & P & _ & Hn);
      [lia|].
    destruct (Hn Heq) as (D' & T).
    exists w'. split_and; auto; lia.
Qed.

(** A compaction with the cursor beyond the content does not return. *)
Lemma s_shift_left_beyond_no_return w :
  wf (buf w) -> size (buf w) < pos (buf w) ->
  forall w', s_shift_left w <> Ret tt w'.
Proof.
  intros [Hsz Hr Hb Hp] Hbeyond w'.
  rewrite s_shift_left_eq. cbv zeta.
  rewrite u32_wrap_neg by u32_lia.
  destruct (Z.eqb_spec (size (buf w) - pos (buf w) + U32_MOD) 0); [u32_lia|].
  destruct (alloc_ok _ _); [|discriminate].
  destruct (COPY _ _ _ _ _) as [b'|] eqn:C; [|discriminate].
  apply COPY_Some in C.
  destruct C as (sb & d & Es & _ & _ & _ & Hfit & _).
  rewrite Es in Hb. cbn in Hb. u32_lia.
Qed.

(** C6, as amended.  On a well-formed buffer with [pos = p <= size = s] and
    an allocator that grants [s - p] bytes, compaction returns and the
    content after it, bytes [[0, s-p)], is what bytes [[p, s)] were before;
    the cursor stays at [p].  A second compaction then depends on [p]:
    when [p = 0] it changes no field and no byte, the block being replaced
    by a fresh one with the same bytes; when [0 < p <= s - p] it returns
    and discards [p] more bytes; when [p > s - p] it does not return. *)
Theorem s_shift_left_content (w : world) :
  wf (buf w) -> pos (buf w) <= size (buf w) ->
  (forall t, alloc_ok t (size (buf w) - pos (buf w)) = true) ->
  let s := buf w in
  exists w1,
    s_shift_left w = Ret tt w1 /\
    content (buf w1) = slice (content s) (pos s) (size s - pos s) /\
    blen (content (buf w1)) = size s - pos s /\
    pos (buf w1) = pos s /\
    (pos s = 0 ->
     exists w2, s_shift_left w1 = Ret tt w2 /\ buf w2 = buf w1 /\
       (0 < size s -> trace w2 = EvFree :: EvAlloc (size s) :: trace w1)) /\
    (0 < pos s -> 2 * pos s <= size s ->
     (forall t, alloc_ok t (size s - 2 * pos s) = true) ->
     exists w2, s_shift_left w1 = Ret tt w2 /\
       content (buf w2) = slice (content s) (2 * pos s) (size s - 2 * pos s) /\
       size (buf w2) = size s - 2 * pos s /\
       pos (buf w2) = pos s /\
       buf w2 <> buf w1) /\
    (size s < 2 * pos s -> forall w2, s_shift_left w1 <> Ret tt w2).
Proof.
  intros Hwf Hps Ha. cbv zeta.
  destruct (s_shift_left_moves w Hwf Hps (fun _ => Ha _))
    as (w1 & E1 & C1 & S1 & R1 & P1 & Hd1 & Hn1).
  exists w1. split; [exact E1|].
  pose proof (s_shift_left_ret _ _ Hwf E1) as (Hwf1 & _).
  pose proof (content_blen _ Hwf) as L. unfold blen in L.
  assert (Hp0 : 0 <= pos (buf w)) by (destruct Hwf; u32_lia).
  split_and.
  - rewrite C1. unfold slice at 1. rewrite firstn_all2; [reflexivity|].
    rewrite length_skipn. lia.
  - rewrite content_blen by assumption. exact S1.
  - exact P1.
  - intros P0. rewrite P0, Z.sub_0_r in *.
    assert (Hps1 : pos (buf w1) <= size (buf w1)) by (destruct Hwf; lia).
    destruct (s_shift_left_moves w1 Hwf1 Hps1)
      as (w2 & E2 & C2 & S2 & R2 & P2 & Hd2 & Hn2).
    { intros _. rewrite P1, S1, Z.sub_0_r. apply Ha. }
    exists w2. split; [exact E2|].
    pose proof (s_shift_left_ret _ _ Hwf1 E2) as (_ & _ & _ & _ & F2 & D2 & _).
    assert (Ed : data (buf w2) = data (buf w1)).
    { destruct (Z.eq_dec (pos (buf w1)) (size (buf w1))) as [E|N].
      - destruct (Hn2 E) as (-> & _).
        destruct (Hn1 ltac:(lia)) as (-> & _). reflexivity.
      - destruct (Hd2 ltac:(lia)) as (d1 & D1 & ->). rewrite D1. f_equal.
        rewrite P1, Z.sub_0_r.
        destruct Hwf1 as [_ _ Hb1 _]. rewrite D1 in Hb1. cbn in Hb1.
        rewrite <- R1 in S1. rewrite S1, <- Hb1. apply slice_all. }
    assert (Et : tracked (buf w2) = tracked (buf w1) /\
                 (0 < size (buf w) ->
                  trace w2 = EvFree :: EvAlloc (size (buf w)) :: trace w1)).
    { revert E2. rewrite s_shift_left_eq. cbv zeta.
      rewrite P1, S1, Z.sub_0_r.
      pose proof (wf_size _ Hwf) as Hsz. pose proof (wf_rsize _ Hwf) as Hr.
      rewrite u32_id by u32_lia.
      destruct (Z.eqb_spec (size (buf w)) 0).
      - intros E. injection E as <-. split; [reflexivity|lia].
      - destruct (alloc_ok _ _); [|discriminate].
        destruct (COPY _ _ _ _ _); [|discriminate].
        intros E. injection E as <-. split; reflexivity. }
    destruct Et as (Et & Htr).
    split; [|exact Htr].
    rewrite P1, Z.sub_0_r in *.
    destruct (buf w1), (buf w2); cbn in *. subst. reflexivity.
  - intros Hpos Hhalf Ha2.
    assert (Hps1 : pos (buf w1) <= size (buf w1)) by lia.
    destruct (s_shift_left_moves w1 Hwf1 Hps1)
      as (w2 & E2 & C2 & S2 & R2 & P2 & _).
    { intros _. rewrite P1, S1.
      replace (size (buf w) - pos (buf w) - pos (buf w))
        with (size (buf w) - 2 * pos (buf w)) by lia.
      apply Ha2. }
    exists w2. split; [exact E2|].
    split_and.
    + rewrite C2, C1, P1. rewrite skipn_skipn.
      unfold slice. rewrite firstn_all2.
      * f_equal. lia.
      * rewrite length_skipn. lia.
    + lia.
    + lia.
    + intros Heq. apply (f_equal size) in Heq. lia.
  - intros Hover.
    apply s_shift_left_beyond_no_return; [assumption|lia].
Qed.

(** ** [read(2)] on the stream *)

Lemma pending_skipn k cs rest :
  (k <= length cs)%nat ->
  (pending (match skipn k cs with
            | [] => rest
            | later => Ready later :: rest
            end) + k = pending (Ready cs :: rest))%nat.
Proof.
  intros Hk. cbn [pending].
  pose proof (length_skipn k cs) as L.
  destruct (skipn k cs) as [|c later]; cbn [pending length] in *; lia.
Qed.

(** A [read] that returns leaves the structure alone and logs itself; it
    either reports end of data or an error, or hands over [rc > 0] bytes
    that it takes off the stream. *)
Lemma sys_read_ret b count w r w1 :
  sys_read b count w = Ret r w1 ->
  buf w1 = buf w /\
  trace w1 = EvRead count (fst r) :: trace w /\
  (fst r <= 0 /\ (pending (input w1) <= pending (input w))%nat
   \/
   0 < fst r <= count /\ fst r <= READ_MAX /\ fst r <= blen (snd r) /\
   (pending (input w1) + Z.to_nat (fst r) = pending (input w))%nat).
Proof.
  unfold sys_read. destruct (input w) as [|[|cs] rest] eqn:I.
  - intros E. injection E as <- <-. cbn. split_and; auto. left. lia.
  - intros E. injection E as <- <-. cbn. split_and; auto. left. lia.
  - cbv zeta.
    set (k := Z.to_nat (Z.min (Z.min count READ_MAX) (blen cs))).
    destruct (Z.leb_spec (Z.of_nat k) (blen b)) as [Hk|]; [|discriminate].
    intros E. injection E as <- <-. cbn [fst snd buf trace input].
    split_and; auto.
    assert (Hkc : (k <= length cs)%nat) by (unfold k, blen; lia).
    pose proof (pending_skipn k cs rest Hkc) as P.
    destruct (Z.eq_dec (Z.of_nat k) 0) as [K0|K0].
    + left. split; [lia|]. lia.
    + right. split_and; try (unfold k, blen, READ_MAX in *; lia).
      rewrite blen_app. unfold blen in *.
      rewrite length_firstn, length_skipn. lia.
Qed.

(** ** One turn of the fill loop *)

Lemma s_read_stream_iter_eq end_ w :
  s_read_stream_iter end_ w =
    let s := buf w in
    let req := u32 (end_ - size s) in
    let m := u32 (size s - req) in
    if alloc_ok (length (trace w)) m then
      match sys_read (resize None m) req
                     (mk_world (buf w) (input w) (EvAlloc m :: trace w)) with
      | Ret r w1 =>
          if fst r <=? 0
          then Ret (Some (-1)) (mk_world (buf w1) (input w1) (EvFree :: trace w1))
          else match s_append (snd r) (u32 (fst r)) w1 with
               | Ret _ w2 =>
                   Ret None (mk_world (buf w2) (input w2) (EvFree :: trace w2))
               | Raise e => Raise e
               | Undef => Undef
               end
      | Raise e => Raise e
      | Undef => Undef
      end
    else Raise (NoMemError m).
Proof.
  unfold s_read_stream_iter, bind, get_s. cbv zeta.
  unfold s_alloc_or_raise, s_realloc_or_raise, bind.
  destruct (alloc_ok _ _); [|reflexivity]. cbn [emit ret buf input trace].
  destruct (sys_read _ _ _) as [r w1| |]; try reflexivity.
  destruct (fst r <=? 0); [reflexivity|].
  destruct (s_append _ _ _) as [[] w2| |]; reflexivity.
Qed.

(** A turn that returns on a well-formed buffer: either it leaves the
    function with [-1] and the structure as it was, or it goes on with
    [n > 0] more bytes of content taken off the stream, [size] and [pos]
    both moved by [n]. *)
Lemma s_read_stream_iter_ret end_ w r w' :
  wf (buf w) -> s_read_stream_iter end_ w = Ret r w' ->
  (r = Some (-1) /\ buf w' = buf w /\
   (pending (input w') <= pending (input w))%nat)
  \/
  (r = None /\ wf (buf w') /\
   flags (buf w') = flags (buf w) /\ fd (buf w') = fd (buf w) /\
   exists bs, 0 < blen bs /\
     content (buf w') = content (buf w) ++ bs /\
     size (buf w') = size (buf w) + blen bs /\
     pos (buf w') = u32 (pos (buf w) + blen bs) /\
     (pending (input w') + length bs = pending (input w))%nat).
Proof.
  intros Hwf. rewrite s_read_stream_iter_eq. cbv zeta.
  destruct (alloc_ok _ _); [|discriminate].
  destruct (sys_read _ _ _) as [rd w1| |] eqn:R; try discriminate.
  apply sys_read_ret in R. cbn [buf trace input] in R.
  destruct R as (Eb & Et & Hrc).
  destruct (Z.leb_spec (fst rd) 0) as [Hle|Hgt].
  - intros E. injection E as <- <-. left. cbn [buf input].
    split_and; auto. destruct Hrc as [[_ P]|[H _]]; [exact P|lia].
  - destruct Hrc as [[H _]|(Hc & Hmax & Hb & P)]; [lia|].
    assert (Hu : u32 (fst rd) = fst rd)
      by (apply u32_id; unfold READ_MAX in *; u32_lia).
    rewrite Hu.
    destruct (s_append _ _ _) as [[] w2| |] eqn:A; try discriminate.
    apply s_append_ret in A; [|rewrite Eb; exact Hwf]. cbv zeta in A.
    rewrite Eb in A.
    destruct A as (_ & Hwf2 & As & Ap & Af & Afd & Ai & Ac & _).
    intros E. injection E as <- <-. right. cbn [buf input].
    split_and; auto.
    exists (slice (snd rd) 0 (fst rd)).
    assert (L : blen (slice (snd rd) 0 (fst rd)) = fst rd)
      by (apply slice_length; lia).
    rewrite L. split_and; auto; try lia.
    rewrite Ai. unfold blen in L. lia.
Qed.

(** ** The fill loop *)

Lemma u32_add_l x y : u32 (u32 x + y) = u32 (x + y).
Proof. unfold u32. apply Z.add_mod_idemp_l. unfold U32_MOD. lia. Qed.

(** One turn more than the stream has bytes is enough for the loop. *)
Lemma s_read_stream_loop_total fuel end_ w :
  wf (buf w) -> (pending (input w) < fuel)%nat ->
  exists o, s_read_stream_loop fuel end_ w = Some o.
Proof.
  revert w. induction fuel as [|fuel IH]; intros w Hwf Hf; [lia|].
  cbn [s_read_stream_loop].
  destruct (size (buf w) <? end_); [|eexists; reflexivity].
  destruct (s_read_stream_iter end_ w) as [[rv|] w'| |] eqn:I;
    try (eexists; reflexivity).
  apply s_read_stream_iter_ret in I; [|assumption].
  destruct I as [(E & _)|(_ & Hwf' & _ & _ & bs & Hbs & _ & _ & _ & P)];
    [discriminate|].
  apply IH; [assumption|]. unfold blen in Hbs. lia.
Qed.

(** The loop, when it comes to an end on a well-formed buffer: bytes [bs]
    were added to the content, [size] and [pos] both moved by their number;
    the loop ended because [size] reached [end_], or left the function with
    [-1] before that. *)
Lemma s_read_stream_loop_ret fuel end_ w r w' :
  wf (buf w) -> s_read_stream_loop fuel end_ w = Some (Ret r w') ->
  wf (buf w') /\
  flags (buf w') = flags (buf w) /\ fd (buf w') = fd (buf w) /\
  exists bs,
    content (buf w') = content (buf w) ++ bs /\
    size (buf w') = size (buf w) + blen bs /\
    pos (buf w') = u32 (pos (buf w) + blen bs) /\
    (r = None /\ end_ <= size (buf w') \/
     r = Some (-1) /\ size (buf w') < end_).
Proof.
  revert w. induction fuel as [|fuel IH]; intros w Hwf; [discriminate|].
  cbn [s_read_stream_loop].
  destruct (Z.ltb_spec (size (buf w)) end_) as [Hlt|Hge].
  - destruct (s_read_stream_iter end_ w) as [[rv|] w1| |] eqn:I;
      try discriminate.
    + intros E. injection E as <- <-.
      apply s_read_stream_iter_ret in I; [|assumption].
      destruct I as [(E & Eb & _)|(E & _)]; [|discriminate].
      injection E as ->. rewrite Eb. split_and; auto.
      exists []. rewrite app_nil_r. cbn. rewrite !Z.add_0_r.
      split_and; auto.
      symmetry. apply u32_id. destruct Hwf. assumption.
    + intros L.
      apply s_read_stream_iter_ret in I; [|assumption].
      destruct I as [(E & _)|(_ & Hwf1 & F1 & D1 & bs & Hbs & C1 & S1 & P1 & _)];
        [discriminate|].
      apply IH in L; [|assumption].
      destruct L as (Hwf' & F' & D' & bs' & C' & S' & P' & Hr).
      split_and; auto; try congruence.
      exists (bs ++ bs'). rewrite blen_app. split_and.
      * rewrite C', C1. symmetry. apply app_assoc.
      * lia.
      * rewrite P', P1, u32_add_l. f_equal. lia.
      * exact Hr.
  - intros E. injection E as <- <-. split_and; auto.
    exists []. rewrite app_nil_r. cbn. rewrite !Z.add_0_r.
    split_and; auto.
    symmetry. apply u32_id. destruct Hwf. assumption.
Qed.

Lemma wf_set_pos s p : wf s -> is_u32 p -> wf (set_pos p s).
Proof. intros [H1 H2 H3 H4] Hp. constructor; auto. Qed.

Lemma content_set_pos s p : content (set_pos p s) = content s.
Proof. reflexivity. Qed.

(** [s_read_stream] on a well-formed buffer.  It returns [1] with the cursor
    where it was and [size >= end_], or [-1] with [size < end_] and the
    cursor moved by the number of bytes the turns before had added; either
    way those bytes stay in the content. *)
Lemma s_read_stream_ret end_ w rv w' :
  wf (buf w) -> s_read_stream end_ w = Ret rv w' ->
  wf (buf w') /\
  flags (buf w') = flags (buf w) /\ fd (buf w') = fd (buf w) /\
  exists bs,
    content (buf w') = content (buf w) ++ bs /\
    size (buf w') = size (buf w) + blen bs /\
    (rv = 1 /\ pos (buf w') = pos (buf w) /\ end_ <= size (buf w') \/
     rv = -1 /\ pos (buf w') = u32 (pos (buf w) + blen bs) /\
       size (buf w') < end_).
Proof.
  intros Hwf. unfold s_read_stream. cbv zeta.
  destruct (s_read_stream_loop _ _ _) as [[[rv'|] w1| |]|] eqn:L;
    try discriminate.
  - intros E. injection E as <- <-.
    apply s_read_stream_loop_ret in L; [|assumption].
    destruct L as (Hwf' & F' & D' & bs & C' & S' & P' & [(E & _)|(E & Hlt)]);
      [discriminate|].
    injection E as <-. split_and; auto.
    exists bs. split_and; auto.
  - unfold bind, modify_s, ret. intros E. injection E as <- <-.
    apply s_read_stream_loop_ret in L; [|assumption].
    destruct L as (Hwf' & F' & D' & bs & C' & S' & P' & [(_ & Hge)|(E & _)]);
      [|discriminate].
    simpl_world. split_and; auto.
    + apply wf_set_pos; [assumption|]. destruct Hwf. assumption.
    + exists bs. rewrite content_set_pos. split_and; auto.
Qed.

(** [s_read_stream] never runs out of turns: on a well-formed buffer it
    returns, raises the allocation failure, or overruns its scratch block,
    and it is the loop that says which. *)
Lemma s_read_stream_total end_ w :
  wf (buf w) ->
  exists o, s_read_stream_loop (S (pending (input w))) end_ w = Some o.
Proof. intros Hwf. apply s_read_stream_loop_total; [assumption|lia]. Qed.

(** ** The bounds guard [s_get_p_at_pos] *)

Lemma s_get_p_at_pos_eq p req w :
  s_get_p_at_pos p req w =
    if u32 (p + req) >=? size (buf w) then
      if negb (Z.land (flags (buf w)) FLAG_STREAM =? 0) then
        match s_read_stream (u32 (p + req + 1)) w with
        | Ret rc w' => if rc <? 0 then Raise (RangeError_stream req) else Ret p w'
        | Raise e => Raise e
        | Undef => Undef
        end
      else Raise (RangeError_bounds p req (size (buf w)))
    else Ret p w.
Proof.
  unfold s_get_p_at_pos, bind, get_s.
  destruct (u32 (p + req) >=? size (buf w)); [|reflexivity].
  destruct (negb _); [|reflexivity].
  destruct (s_read_stream _ w) as [rc w'| |]; try reflexivity.
  destruct (rc <? 0); reflexivity.
Qed.

(** On a Bounded buffer the guard is a comparison and nothing else. *)
Lemma s_get_p_at_pos_bounded_eq p req w :
  Bounded (buf w) ->
  s_get_p_at_pos p req w =
    if u32 (p + req) >=? size (buf w)
    then Raise (RangeError_bounds p req (size (buf w)))
    else Ret p w.
Proof.
  unfold Bounded. intros B. rewrite s_get_p_at_pos_eq, B. reflexivity.
Qed.

(** The guard on a Bounded buffer, for requests whose [offset + length] is a
    32-bit value: at or beyond [size] the range error with [offset],
    [length] and [size]; below [size] the pointer to [data[offset]], through
    which [length] bytes can be read, and the buffer as it was. *)
Lemma s_get_p_at_pos_bounded offset length w :
  wf (buf w) -> Bounded (buf w) ->
  0 <= offset -> 0 <= length -> offset + length < U32_MOD ->
  (size (buf w) <= offset + length ->
   s_get_p_at_pos offset length w =
     Raise (RangeError_bounds offset length (size (buf w)))) /\
  (offset + length < size (buf w) ->
   s_get_p_at_pos offset length w = Ret offset w /\
   load (data (buf w)) offset length =
     Some (slice (content (buf w)) offset length)).
Proof.
  intros [Hsz Hr Hb Hp] B Ho Hl Hfit.
  rewrite s_get_p_at_pos_bounded_eq by assumption.
  rewrite u32_id by u32_lia.
  split; intros H.
  - destruct (Z.geb_spec (offset + length) (size (buf w))); [reflexivity|lia].
  - destruct (Z.geb_spec (offset + length) (size (buf w))); [lia|].
    split; [reflexivity|].
    unfold content. destruct (data (buf w)) as [d|]; cbn in Hb; [|lia].
    rewrite load_in_range by lia. f_equal.
    unfold slice. cbn [Z.to_nat skipn].
    rewrite skipn_firstn_comm, firstn_firstn. f_equal. lia.
Qed.

(** On a Streaming buffer a request at or beyond [size] goes to
    [s_read_stream]; the range error is raised when that returns a negative
    result, and only then. *)
Lemma s_get_p_at_pos_streaming offset length w :
  Streaming (buf w) ->
  size (buf w) <= u32 (offset + length) ->
  s_get_p_at_pos offset length w =
    match s_read_stream (u32 (offset + length + 1)) w with
    | Ret rc w' =>
        if rc <? 0 then Raise (RangeError_stream length) else Ret offset w'
    | Raise e => Raise e
    | Undef => Undef
    end.
Proof.
  unfold Streaming. intros S H. rewrite s_get_p_at_pos_eq.
  destruct (Z.geb_spec (u32 (offset + length)) (size (buf w))); [|lia].
  destruct (Z.eqb_spec (Z.land (flags (buf w)) FLAG_STREAM) 0); [contradiction|].
  reflexivity.
Qed.

(** ** The typed reads *)

Lemma hd_singleton (v : list byte) : blen v = 1 -> [hd x00 v] = v.
Proof.
  unfold blen. destruct v as [|a [|b v]]; cbn [length hd]; intros H;
    try reflexivity; lia.
Qed.

(** Each typed read is the guard at the cursor with [sizeof(T) - 1], then
    the cursor moved by [sizeof(T)] and the object read. *)
Lemma s_get_bang_eq t w :
  s_get_bang t w =
    match s_get_p_at_pos (pos (buf w)) (sizeof t - 1) w with
    | Ret r w1 =>
        match load (data (buf w1)) r (sizeof t) with
        | Some v =>
            Ret v (with_buf (set_pos (u32 (pos (buf w1) + sizeof t)) (buf w1)) w1)
        | None => Undef
        end
    | Raise e => Raise e
    | Undef => Undef
    end.
Proof.
  destruct t; cbn [s_get_bang sizeof];
    try (unfold s_get_u32_bang, s_get_float_bang, s_get_double_bang,
           s_get_long_double_bang, bind, get_s;
         destruct (s_get_p_at_pos _ _ w) as [r w1| |]; try reflexivity;
         unfold deref, bind, get_s, defined, modify_s; simpl_world;
         destruct (load _ _ _); reflexivity).
  unfold s_get_u8_bang, s_get_u8, s_get_p, bind, get_s.
  change (sizeof_u8 - 1) with 0.
  destruct (s_get_p_at_pos _ _ w) as [r w1| |]; try reflexivity.
  unfold deref, bind, get_s, defined.
  destruct (load _ _ _) as [v|] eqn:L; [|reflexivity].
  apply load_Some in L. destruct L as (d & _ & Hr & _ & Hfit & ->).
  unfold ret, modify_s. simpl_world.
  rewrite hd_singleton; [reflexivity|].
  apply slice_length; unfold sizeof_u8 in *; lia.
Qed.

(** The typed reads on a well-formed Bounded buffer, part of C9.  A read of
    [T] with [pos + sizeof(T) <= size], a read that ends at the end of the
    content included, returns the [sizeof(T)] bytes at the cursor and moves
    the cursor by [sizeof(T)].  A read with [pos + sizeof(T) > size] does
    not return: when [pos + sizeof(T) - 1] is a 32-bit value the guard
    raises, and the length it reports is [sizeof(T) - 1], the length it was
    given; what happens when that sum wraps is the matter of the lemma on
    the wrapping cursor further down. *)
Theorem s_get_bang_bounded (t : prim) (w : world) :
  0 < sizeof_long_double ->
  wf (buf w) -> Bounded (buf w) ->
  let s := buf w in
  let n := sizeof t in
  (pos s + n <= size s ->
   exists d, data s = Some d /\
     s_get_bang t w =
       Ret (slice d (pos s) n) (with_buf (set_pos (pos s + n) s) w)) /\
  (size s < pos s + n -> forall v w', s_get_bang t w <> Ret v w') /\
  (size s < pos s + n -> pos s + n - 1 < U32_MOD ->
   s_get_bang t w = Raise (RangeError_bounds (pos s) (n - 1) (size s))).
Proof.
  intros Hld [Hsz Hr Hb Hp] B. cbv zeta.
  assert (Hn : 0 < sizeof t) by (destruct t; cbn; auto; reflexivity).
  rewrite s_get_bang_eq, s_get_p_at_pos_bounded_eq by assumption.
  split_and.
  - intros Hfit.
    rewrite u32_id by u32_lia.
    destruct (Z.geb_spec (pos (buf w) + (sizeof t - 1)) (size (buf w))); [lia|].
    destruct (data (buf w)) as [d|] eqn:D; cbn in Hb; [|u32_lia].
    exists d. split; [reflexivity|].
    rewrite load_in_range by u32_lia.
    rewrite u32_id by u32_lia. reflexivity.
  - intros Hover v w'.
    destruct (Z.geb_spec (u32 (pos (buf w) + (sizeof t - 1))) (size (buf w)))
      as [|Hpass]; [discriminate|].
    destruct (load _ _ _) as [v'|] eqn:L; [|discriminate].
    apply load_Some in L. destruct L as (d & D & _ & _ & Hfit & _).
    rewrite D in Hb. cbn in Hb.
    rewrite u32_id in Hpass by u32_lia. lia.
  - intros Hover Hnowrap.
    rewrite u32_id by u32_lia.
    destruct (Z.geb_spec (pos (buf w) + (sizeof t - 1)) (size (buf w))); [|lia].
    reflexivity.
Qed.

(** A turn of the fill loop whose read finds [k > 0] bytes to hand over
    and a scratch block that holds them. *)
Lemma s_read_stream_iter_reads end_ w cs rest :
  wf (buf w) -> is_u32 end_ -> size (buf w) < end_ ->
  let req := end_ - size (buf w) in
  let m := u32 (size (buf w) - req) in
  let k := Z.min (Z.min req READ_MAX) (blen cs) in
  alloc_ok (length (trace w)) m = true ->
  input w = Ready cs :: rest ->
  0 < k <= m ->
  size (buf w) + k + 512 < U32_MOD ->
  alloc_ok (S (S (length (trace w)))) (size (buf w) + k + 512) = true ->
  exists w' later,
    s_read_stream_iter end_ w = Ret None w' /\
    content (buf w') = content (buf w) ++ firstn (Z.to_nat k) cs /\
    size (buf w') = size (buf w) + k /\
    trace w' = later ++ EvRead req k :: EvAlloc m :: trace w.
Proof.
  intros Hwf He Hlt req m k Ha I Hk Hfit Ha2.
  pose proof Hwf as [Hsz Hr Hb Hp].
  pose proof (u32_range (size (buf w) - req)) as Hm. fold m in Hm.
  rewrite s_read_stream_iter_eq. cbv zeta.
  rewrite (u32_id (end_ - size (buf w))) by u32_lia.
  fold req. fold m. rewrite Ha.
  unfold sys_read. cbn [input]. rewrite I. cbv zeta. fold k.
  assert (Hkk : Z.of_nat (Z.to_nat k) = k) by lia.
  rewrite resize_blen by u32_lia.
  rewrite Hkk.
  destruct (Z.leb_spec k m); [|lia].
  cbn [fst snd].
  destruct (Z.leb_spec k 0); [lia|].
  rewrite (u32_id k) by u32_lia.
  match goal with
  | |- context [s_append ?sfx ?n ?w1] =>
      destruct (s_append_returns sfx n w1) as (w2 & A);
        [exact Hwf | | exact Hfit | exact Ha2 | ];
        [ | pose proof (s_append_ret sfx n w1 w2 Hwf A) as R; rewrite A ]
  end.
  - rewrite blen_app.
    pose proof (blen_nonneg (skipn (Z.to_nat k) (resize None m))) as Hs.
    assert (Hcs : k <= blen cs) by (unfold k; lia).
    unfold blen in *. rewrite length_firstn. lia.
  - cbv zeta in R. cbn [buf input trace] in R.
    destruct R as (_ & _ & S2 & _ & _ & _ & _ & C2 & _ & T2).
    assert (Hcs : k <= blen cs) by (unfold k; lia).
    assert (Hslice : slice (firstn (Z.to_nat k) cs ++
                            skipn (Z.to_nat k) (resize None m)) 0 k
                     = firstn (Z.to_nat k) cs).
    { unfold slice. cbn [Z.to_nat skipn].
      rewrite firstn_app, length_firstn.
      replace (Z.to_nat k - Nat.min (Z.to_nat k) (length cs))%nat with 0%nat
        by (unfold blen in Hcs; lia).
      rewrite firstn_O, app_nil_r, firstn_firstn, Nat.min_id. reflexivity. }
    rewrite Hslice in C2.
    destruct T2 as [T2|(m' & T2)].
    + eexists. exists [EvFree]. split; [reflexivity|]. cbn [buf trace].
      rewrite T2. split_and; auto.
    + eexists. exists [EvFree; EvAlloc m']. split; [reflexivity|].
      cbn [buf trace]. rewrite T2. split_and; auto.
Qed.

(** C10.  A turn of the fill loop with [req = end_ - size] bytes missing
    asks the allocator for [m = size - req] bytes modulo 2^32 and then
    reads from the stream into that block with the count [req].  A refused
    request raises with the byte count [m]; when [req > size], [m] is
    [size - req + 2^32].  With the block granted the read takes place:
    at the end of the stream or on an error it returns [0] or [-1] and the
    turn leaves with [-1], the request for [m] bytes and the read of [req]
    logged; with [k = min(req, 0x7ffff000, bytes ready)] bytes to hand over
    the turn appends them when [k <= m], and the read runs over the block
    when [k > m], which needs [m < req]. *)
Theorem s_read_stream_scratch_size (end_ : Z) (w : world) :
  is_u32 (size (buf w)) -> is_u32 end_ -> size (buf w) < end_ ->
  let s := buf w in
  let req := end_ - size s in
  let m := u32 (size s - req) in
  (forall fuel,
     s_read_stream_loop (S fuel) end_ w =
       match s_read_stream_iter end_ w with
       | Ret None w' => s_read_stream_loop fuel end_ w'
       | Ret (Some rv) w' => Some (Ret (Some rv) w')
       | Raise e => Some (Raise e)
       | Undef => Some Undef
       end) /\
  (alloc_ok (length (trace w)) m = false ->
   s_read_stream_iter end_ w = Raise (NoMemError m)) /\
  (forall r w', s_read_stream_iter end_ w = Ret r w' ->
     exists rc later,
       trace w' = later ++ EvRead req rc :: EvAlloc m :: trace w) /\
  (size s < req -> m = size s - req + U32_MOD) /\
  (m < req -> alloc_ok (length (trace w)) m = true ->
   forall cs rest, input w = Ready cs :: rest ->
     m < Z.min (Z.min req READ_MAX) (blen cs) ->
     s_read_stream_iter end_ w = Undef) /\
  (alloc_ok (length (trace w)) m = true ->
   (input w = [] ->
    s_read_stream_iter end_ w =
      Ret (Some (-1))
          (mk_world s [] (EvFree :: EvRead req 0 :: EvAlloc m :: trace w))) /\
   (forall rest, input w = ReadError :: rest ->
    s_read_stream_iter end_ w =
      Ret (Some (-1))
          (mk_world s rest (EvFree :: EvRead req (-1) :: EvAlloc m :: trace w))) /\
   (forall cs rest, input w = Ready cs :: rest ->
    let k := Z.min (Z.min req READ_MAX) (blen cs) in
    (m < k -> s_read_stream_iter end_ w = Undef) /\
    (0 < k <= m -> wf s ->
     size s + k + 512 < U32_MOD ->
     alloc_ok (S (S (length (trace w)))) (size s + k + 512) = true ->
     exists w' later,
       s_read_stream_iter end_ w = Ret None w' /\
       content (buf w') = content s ++ firstn (Z.to_nat k) cs /\
       size (buf w') = size s + k /\
       trace w' = later ++ EvRead req k :: EvAlloc m :: trace w))).
Proof.
  intros Hs He Hlt. cbv zeta.
  assert (Hreq : u32 (end_ - size (buf w)) = end_ - size (buf w))
    by (apply u32_id; u32_lia).
  split_and.
  - intros fuel. cbn [s_read_stream_loop].
    destruct (Z.ltb_spec (size (buf w)) end_); [reflexivity|lia].
  - intros Ha. rewrite s_read_stream_iter_eq. cbv zeta.
    rewrite Hreq, Ha. reflexivity.
  - intros r w'. rewrite s_read_stream_iter_eq. cbv zeta. rewrite Hreq.
    destruct (alloc_ok _ _); [|discriminate].
    destruct (sys_read _ _ _) as [rd w1| |] eqn:R; try discriminate.
    apply sys_read_ret in R. cbn [buf trace input] in R.
    destruct R as (Eb & Et & _).
    destruct (fst rd <=? 0).
    + intros E. injection E as <- <-. cbn [trace]. rewrite Et.
      exists (fst rd), [EvFree]. reflexivity.
    + destruct (s_append _ _ _) as [[] w2| |] eqn:A; try discriminate.
      intros E. injection E as <- <-. cbn [trace].
      rewrite s_append_eq, s_alloc_eq in A. cbv zeta in A.
      exists (fst rd).
      destruct (rsize (buf w1) >? _).
      * destruct (COPY _ _ _ _ _); [|discriminate].
        injection A as <-. cbn [trace with_buf]. rewrite Et.
        exists [EvFree]. reflexivity.
      * destruct (alloc_ok _ _); [|discriminate]. cbn [buf] in A.
        destruct (COPY _ _ _ _ _); [|discriminate].
        injection A as <-. cbn [trace with_buf]. rewrite Et.
        eexists [EvFree; EvAlloc _]. reflexivity.
  - intros Hwrap. apply u32_wrap_neg. u32_lia.
  - intros Hsmall Ha cs rest I Hover.
    rewrite s_read_stream_iter_eq. cbv zeta. rewrite Hreq, Ha.
    unfold sys_read. cbn [input]. rewrite I. cbv zeta.
    pose proof (u32_range (size (buf w) - (end_ - size (buf w)))) as Hm.
    rewrite resize_blen by u32_lia.
    destruct (Z.leb_spec
      (Z.of_nat (Z.to_nat (Z.min (Z.min (end_ - size (buf w)) READ_MAX) (blen cs))))
      (u32 (size (buf w) - (end_ - size (buf w))))); [lia|reflexivity].
  - intros Ha. split_and.
    + intros I.
      rewrite s_read_stream_iter_eq. cbv zeta. rewrite Hreq, Ha.
      unfold sys_read. cbn [input]. rewrite I. reflexivity.
    + intros rest I.
      rewrite s_read_stream_iter_eq. cbv zeta. rewrite Hreq, Ha.
      unfold sys_read. cbn [input]. rewrite I. reflexivity.
    + intros cs rest I. cbv zeta. split.
      * intros Hover.
        rewrite s_read_stream_iter_eq. cbv zeta. rewrite Hreq, Ha.
        unfold sys_read. cbn [input]. rewrite I. cbv zeta.
        pose proof (u32_range (size (buf w) - (end_ - size (buf w)))) as Hm.
        rewrite resize_blen by u32_lia.
        destruct (Z.leb_spec
          (Z.of_nat (Z.to_nat
             (Z.min (Z.min (end_ - size (buf w)) READ_MAX) (blen cs))))
          (u32 (size (buf w) - (end_ - size (buf w))))); [lia|reflexivity].
      * intros Hk Hwf Hfit Ha2.
        exact (s_read_stream_iter_reads end_ w cs rest
                 Hwf He Hlt Ha I Hk Hfit Ha2).
Qed.

(** ** Sequences of calls *)

(** The guard when it returns on a well-formed buffer: the pointer is the
    offset it was given, the cursor is where it was, and the content may
    only have grown. *)
Lemma s_get_p_at_pos_ret p req w r w' :
  wf (buf w) -> s_get_p_at_pos p req w = Ret r w' ->
  r = p /\ wf (buf w') /\
  flags (buf w') = flags (buf w) /\
  pos (buf w') = pos (buf w) /\
  size (buf w) <= size (buf w') /\
  (u32 (p + req) < size (buf w') \/ u32 (p + req + 1) <= size (buf w')).
Proof.
  intros Hwf. rewrite s_get_p_at_pos_eq.
  destruct (Z.geb_spec (u32 (p + req)) (size (buf w))) as [Hge|Hlt].
  - destruct (negb _); [|discriminate].
    destruct (s_read_stream _ w) as [rc w1| |] eqn:R; try discriminate.
    destruct (Z.ltb_spec rc 0) as [|Hrc]; [discriminate|].
    intros E. injection E as <- <-.
    apply s_read_stream_ret in R; [|assumption].
    destruct R as (Hwf' & F & _ & bs & _ & S & [(_ & P & Hend)|(E & _)]); [|lia].
    pose proof (blen_nonneg bs). split_and; auto; lia.
  - intros E. injection E as <- <-. split_and; auto; lia.
Qed.

Lemma run_op_wf o w w' :
  wf (buf w) -> run_op o w = Ret tt w' -> wf (buf w').
Proof.
  intros Hwf. destruct o as [b|off len|off len|t|n|]; cbn [run_op].
  - intros E. apply s_append_ret in E; [|assumption]. apply E.
  - unfold bind. destruct (s_get_p_at_pos _ _ w) as [r w1| |] eqn:G;
      try discriminate.
    intros E. injection E as <-.
    apply s_get_p_at_pos_ret in G; [|assumption]. apply G.
  - unfold s_get_p_at_pos_bang, bind.
    destruct (s_get_p_at_pos _ _ w) as [r w1| |] eqn:G; try discriminate.
    intros E. injection E as <-.
    apply s_get_p_at_pos_ret in G; [|assumption].
    apply wf_set_pos; [apply G|apply u32_range].
  - unfold bind. rewrite s_get_bang_eq.
    destruct (s_get_p_at_pos _ _ w) as [r w1| |] eqn:G; try discriminate.
    destruct (load _ _ _); [|discriminate].
    intros E. injection E as <-.
    apply s_get_p_at_pos_ret in G; [|assumption].
    apply wf_set_pos; [apply G|apply u32_range].
  - intros E. injection E as <-.
    apply wf_set_pos; [assumption|apply u32_range].
  - intros E. apply s_shift_left_ret in E; [|assumption]. apply E.
Qed.

Lemma run_op_cursor o w w' :
  0 < sizeof_long_double ->
  wf (buf w) -> pos (buf w) <= size (buf w) -> keeps_cursor o = true ->
  run_op o w = Ret tt w' -> pos (buf w') <= size (buf w').
Proof.
  intros Hld Hwf Hps K.
  destruct o as [b|off len|off len|t|n|]; try discriminate; cbn [run_op].
  - intros E. apply s_append_ret in E; [|assumption]. cbv zeta in E.
    destruct E as (Hn & [Hsz Hr _ _] & S & P & _).
    destruct Hwf as [_ _ _ Hp].
    rewrite P, S, u32_id; u32_lia.
  - unfold bind. destruct (s_get_p_at_pos _ _ w) as [r w1| |] eqn:G;
      try discriminate.
    intros E. injection E as <-.
    apply s_get_p_at_pos_ret in G; [|assumption].
    destruct G as (_ & _ & _ & P & S & _). lia.
  - unfold bind. rewrite s_get_bang_eq.
    assert (Hn : 0 < sizeof t) by (destruct t; cbn; auto; reflexivity).
    destruct (s_get_p_at_pos _ _ w) as [r w1| |] eqn:G; try discriminate.
    destruct (load _ _ _) as [v|] eqn:L; [|discriminate].
    intros E. injection E as <-. simpl_world.
    apply s_get_p_at_pos_ret in G; [|assumption].
    destruct G as (-> & [Hsz Hr Hb Hp] & _ & P & S & Hguard).
    apply load_Some in L. destruct L as (d & D & _ & _ & Hfit & _).
    rewrite D in Hb. cbn in Hb.
    replace (pos (buf w) + (sizeof t - 1) + 1)
      with (pos (buf w) + sizeof t) in Hguard by lia.
    rewrite !u32_id in Hguard by u32_lia.
    rewrite P, u32_id by u32_lia. lia.
Qed.

Lemma created_empty_wf s : created_empty s -> wf s /\ pos s <= size s.
Proof.
  intros (D & S & P & R). split; [constructor|]; rewrite ?D, ?S, ?P, ?R;
    cbn; u32_lia.
Qed.

Lemma run_invariant ops : forall w w',
  0 < sizeof_long_double ->
  wf (buf w) -> run ops w = Ret tt w' ->
  wf (buf w') /\
  (pos (buf w) <= size (buf w) -> forallb keeps_cursor ops = true ->
   pos (buf w') <= size (buf w')).
Proof.
  induction ops as [|o ops IH]; intros w w' Hld Hwf; cbn [run forallb].
  - intros E. injection E as <-. auto.
  - unfold bind. destruct (run_op o w) as [[] w1| |] eqn:O; try discriminate.
    intros E.
    pose proof (run_op_wf _ _ _ Hwf O) as Hwf1.
    destruct (IH _ _ Hld Hwf1 E) as (Hwf' & Hc).
    split; [assumption|].
    intros Hps K. apply andb_prop in K. destruct K as (Ko & Kops).
    apply Hc; [|assumption].
    exact (run_op_cursor o w w1 Hld Hwf Hps Ko O).
Qed.

Lemma run_app ops1 ops2 w :
  run (ops1 ++ ops2) w =
    match run ops1 w with
    | Ret _ w1 => run ops2 w1
    | Raise e => Raise e
    | Undef => Undef
    end.
Proof.
  revert w. induction ops1 as [|o ops1 IH]; intros w; cbn [run app].
  - reflexivity.
  - unfold bind. destruct (run_op o w) as [[] w1| |]; [apply IH|reflexivity..].
Qed.

(** [s_create] on an allocator that grants the structure. *)
Lemma s_create_created w :
  alloc_ok (length (trace w)) sizeof_sereal_t = true ->
  exists w', s_create w = Ret tt w' /\ buf w' = created /\
             created_empty (buf w') /\ input w' = input w.
Proof.
  intros Ha. unfold s_create, s_alloc_or_raise, s_realloc_or_raise, bind.
  rewrite Ha. eexists. split; [reflexivity|]. cbn. repeat split.
Qed.

(** C1, as amended.  Take a buffer created empty and a sequence of append,
    peek, read, cursor shift and compact calls that all return.  After
    every call of the sequence [size <= rsize], and [rsize] is the length of
    the block behind [data]; [pos <= size] holds as well after a call when
    the calls up to it were appends, peeks and typed reads only. *)
Theorem run_keeps_size_within_capacity (ops1 ops2 : list op) (w w' : world) :
  0 < sizeof_long_double ->
  created_empty (buf w) ->
  run (ops1 ++ ops2) w = Ret tt w' ->
  exists w1,
    run ops1 w = Ret tt w1 /\
    size (buf w1) <= rsize (buf w1) /\
    block_len (data (buf w1)) = rsize (buf w1) /\
    (forallb keeps_cursor ops1 = true -> pos (buf w1) <= size (buf w1)).
Proof.
  intros Hld Hc E. rewrite run_app in E.
  destruct (run ops1 w) as [[] w1| |] eqn:E1; try discriminate.
  exists w1. split; [reflexivity|].
  destruct (created_empty_wf _ Hc) as (Hwf & Hps).
  destruct (run_invariant ops1 w w1 Hld Hwf E1) as ([Hsz _ Hb _] & Hcur).
  split_and; auto. lia.
Qed.

(** * Further properties of [buffer.h] *)

(** ** Growth keeps what is there *)

(** X1.  A call of [s_alloc] that returns on a well-formed buffer, for a
    request whose [size + len + 512] is a 32-bit value, leaves every byte
    of the content as it was, [size] and [pos] unchanged, never less
    reserved than before, and the buffer well-formed. *)
Theorem s_alloc_keeps_content (w w' : world) (len : Z) :
  wf (buf w) -> 0 <= len ->
  size (buf w) + len + 512 < U32_MOD ->
  s_alloc len w = Ret tt w' ->
  content (buf w') = content (buf w) /\
  size (buf w') = size (buf w) /\ pos (buf w') = pos (buf w) /\
  rsize (buf w) <= rsize (buf w') /\
  wf (buf w').
Proof.
  intros Hwf Hl Hfit E.
  pose proof (s_alloc_ret _ _ _ Hwf E) as A. cbv zeta in A.
  destruct A as (As & Ap & _ & _ & _ & _ & Ar & Ab & Apre & _).
  assert (Hcap : rsize (buf w) <= rsize (buf w') /\ size (buf w) <= rsize (buf w')).
  { revert E. rewrite s_alloc_eq. cbv zeta.
    destruct Hwf as [Hsz Hr Hb Hp].
    rewrite !u32_id by u32_lia.
    destruct (Z.gtb_spec (rsize (buf w)) (size (buf w) + len)).
    - intros E. injection E as <-. lia.
    - destruct (alloc_ok _ _); [|discriminate].
      intros E. injection E as <-. simpl_world. lia. }
  destruct Hcap as (Hgrow & Hin).
  destruct Hwf as [Hsz Hr Hb Hp].
  split_and; auto.
  - unfold content. rewrite As. apply Apre; lia.
  - constructor; rewrite ?As, ?Ap; auto; u32_lia.
Qed.

(** ** Appends one after the other *)

(** X2.  Two appends that return, one after the other on a well-formed
    buffer, leave the content followed by the first and then the second
    byte sequence; an append of the two sequences joined, when it returns,
    leaves the same content, [size] and [pos]. *)
Theorem s_append_app (w w1 w2 : world) (a b : list byte) :
  wf (buf w) ->
  s_append a (blen a) w = Ret tt w1 ->
  s_append b (blen b) w1 = Ret tt w2 ->
  content (buf w2) = content (buf w) ++ a ++ b /\
  size (buf w2) = size (buf w) + blen a + blen b /\
  (forall w3, s_append (a ++ b) (blen (a ++ b)) w = Ret tt w3 ->
     content (buf w3) = content (buf w2) /\
     size (buf w3) = size (buf w2) /\ pos (buf w3) = pos (buf w2)).
Proof.
  intros Hwf E1 E2.
  pose proof (s_append_ret _ _ _ _ Hwf E1) as A1. cbv zeta in A1.
  destruct A1 as (_ & Hwf1 & S1 & P1 & _ & _ & _ & C1 & _).
  pose proof (s_append_ret _ _ _ _ Hwf1 E2) as A2. cbv zeta in A2.
  destruct A2 as (_ & Hwf2 & S2 & P2 & _ & _ & _ & C2 & _).
  rewrite slice_all in C1, C2.
  assert (Hc : content (buf w2) = content (buf w) ++ a ++ b)
    by (rewrite C2, C1; symmetry; apply app_assoc).
  split_and; [exact Hc|lia|].
  intros w3 E3.
  pose proof (s_append_ret _ _ _ _ Hwf E3) as A3. cbv zeta in A3.
  destruct A3 as (_ & _ & S3 & P3 & _ & _ & _ & C3 & _).
  rewrite slice_all in C3. rewrite blen_app in S3, P3.
  split_and.
  - rewrite C3, Hc. reflexivity.
  - lia.
  - rewrite P3, P2, P1, u32_add_l. f_equal. lia.
Qed.

(** An append that the reserved bytes cover asks nothing of the
    allocator. *)
Lemma s_append_within_slack b w :
  wf (buf w) -> size (buf w) + blen b < rsize (buf w) ->
  exists w', s_append b (blen b) w = Ret tt w' /\
             trace w' = trace w /\ rsize (buf w') = rsize (buf w).
Proof.
  intros [Hsz Hr Hb Hp] Hslack.
  pose proof (blen_nonneg b) as Hb0.
  rewrite s_append_eq, s_alloc_eq. cbv zeta.
  rewrite (u32_id (size (buf w) + blen b)) by u32_lia.
  destruct (Z.gtb_spec (rsize (buf w)) (size (buf w) + blen b)); [|lia].
  destruct (data (buf w)) as [d|] eqn:D; cbn in Hb; [|lia].
  rewrite COPY_in_range by lia.
  eexists. split; [reflexivity|]. simpl_world. auto.
Qed.

Lemma run_appends_within_slack bss : forall w,
  wf (buf w) -> size (buf w) + blen (concat bss) < rsize (buf w) ->
  exists w', run (map Append bss) w = Ret tt w' /\
             trace w' = trace w /\ rsize (buf w') = rsize (buf w) /\
             content (buf w') = content (buf w) ++ concat bss.
Proof.
  induction bss as [|b bss IH]; intros w Hwf Hslack; cbn [map run concat].
  - exists w. rewrite app_nil_r. auto.
  - cbn [concat] in Hslack. rewrite blen_app in Hslack.
    pose proof (blen_nonneg (concat bss)) as Hrest.
    destruct (s_append_within_slack b w Hwf ltac:(lia)) as (w1 & E1 & T1 & R1).
    pose proof (s_append_ret _ _ _ _ Hwf E1) as A1. cbv zeta in A1.
    destruct A1 as (_ & Hwf1 & S1 & _ & _ & _ & _ & C1 & _).
    rewrite slice_all in C1.
    destruct (IH w1 Hwf1 ltac:(lia)) as (w2 & E2 & T2 & R2 & C2).
    exists w2. unfold bind. cbn [run_op]. rewrite E1.
    split_and; try congruence.
    rewrite C2, C1. symmetry. apply app_assoc.
Qed.

(** X3.  The slack of 512 bytes: after an append that had to grow the
    block, every run of further appends whose lengths add up to fewer than
    512 bytes returns without a request to the allocator, with the bytes
    appended behind the content. *)
Theorem s_append_slack (w w1 : world) (a : list byte) (m : Z)
    (bss : list (list byte)) :
  wf (buf w) ->
  s_append a (blen a) w = Ret tt w1 ->
  trace w1 = EvAlloc m :: trace w ->
  blen (concat bss) < 512 ->
  exists w2, run (map Append bss) w1 = Ret tt w2 /\
             trace w2 = trace w1 /\ rsize (buf w2) = rsize (buf w1) /\
             content (buf w2) = content (buf w1) ++ concat bss.
Proof.
  intros Hwf E1 T1 Hb.
  pose proof (s_append_ret _ _ _ _ Hwf E1) as A1. cbv zeta in A1.
  destruct A1 as (_ & Hwf1 & S1 & _).
  assert (Hr1 : rsize (buf w1) = size (buf w) + blen a + 512).
  { revert E1. rewrite s_append_eq, s_alloc_eq. cbv zeta.
    destruct (rsize (buf w) >? u32 (size (buf w) + blen a)).
    - destruct (COPY _ _ _ _ _); [|discriminate].
      intros E. injection E as <-. cbn [trace with_buf] in T1.
      apply (f_equal (@length event)) in T1. cbn [length] in T1. lia.
    - destruct (alloc_ok _ _); [|discriminate]. simpl_world.
      destruct (COPY _ _ _ _ _) as [d'|] eqn:C; [|discriminate].
      intros E. injection E as <-. simpl_world.
      apply COPY_Some in C.
      destruct C as (sb & d & _ & Ed & _ & Hn & _ & Hoff & Hdfit & _).
      injection Ed as <-.
      pose proof (u32_range (size (buf w) + blen a + 512)) as Hu.
      rewrite resize_blen in Hdfit by u32_lia.
      destruct Hwf as [Hsz Hr _ _].
      pose proof (blen_nonneg a).
      destruct (Z_lt_ge_dec (size (buf w) + blen a + 512) U32_MOD) as [Hlt|Hge].
      + apply u32_id. u32_lia.
      + exfalso. unfold u32 in Hdfit, Hu.
        assert (Hw : (size (buf w) + blen a + 512) mod U32_MOD
                     = size (buf w) + blen a + 512 - U32_MOD).
        { symmetry. apply (Z.mod_unique_pos _ _ 1); u32_lia. }
        u32_lia. }
  apply run_appends_within_slack; [assumption|lia].
Qed.

(** ** Writing, then reading back *)

Lemma sizeof_pos t : 0 < sizeof_long_double -> 0 < sizeof t.
Proof. intros H. destruct t; cbn; auto; reflexivity. Qed.

(** An append at the cursor, the cursor moved back over it, and a typed
    read of as many bytes. *)
Lemma append_read_back t b w :
  0 < sizeof_long_double ->
  wf (buf w) -> Bounded (buf w) -> pos (buf w) = size (buf w) ->
  blen b = sizeof t ->
  size (buf w) + sizeof t + 512 < U32_MOD ->
  alloc_ok (length (trace w)) (size (buf w) + sizeof t + 512) = true ->
  exists w1 w2 w3,
    s_append b (sizeof t) w = Ret tt w1 /\
    s_shift_position_bang (U32_MOD - sizeof t) w1 = Ret (U32_MOD - sizeof t) w2 /\
    pos (buf w2) = size (buf w) /\
    s_get_bang t w2 = Ret b w3 /\
    pos (buf w3) = size (buf w) + sizeof t /\
    content (buf w3) = content (buf w) ++ b.
Proof.
  intros Hld Hwf B Hps Hlen Hfit Ha.
  pose proof (sizeof_pos t Hld) as Hn.
  destruct (s_append_returns b (sizeof t) w Hwf ltac:(lia) Hfit Ha) as (w1 & E1).
  pose proof (s_append_ret _ _ _ _ Hwf E1) as A1. cbv zeta in A1.
  destruct A1 as (_ & Hwf1 & S1 & P1 & F1 & _ & _ & C1 & L1 & _).
  rewrite <- Hlen in C1, L1 at 2. rewrite slice_all in C1, L1.
  destruct Hwf as [Hsz Hr Hb Hp]. destruct Hwf1 as [Hsz1 Hr1 Hb1 Hp1].
  rewrite Hps, u32_id in P1 by u32_lia.
  exists w1. eexists. eexists. split; [exact E1|].
  split; [reflexivity|]. simpl_world.
  assert (Hback : u32 (pos (buf w1) + (U32_MOD - sizeof t)) = size (buf w)).
  { rewrite P1. unfold u32.
    replace (size (buf w) + sizeof t + (U32_MOD - sizeof t))
      with (size (buf w) + 1 * U32_MOD) by lia.
    rewrite Z.mod_add by (unfold U32_MOD; lia).
    apply Z.mod_small. u32_lia. }
  split; [exact Hback|].
  rewrite s_get_bang_eq, s_get_p_at_pos_bounded_eq
    by (unfold Bounded in *; simpl_world; congruence).
  simpl_world. rewrite Hback.
  rewrite u32_id by u32_lia.
  destruct (Z.geb_spec (size (buf w) + (sizeof t - 1)) (size (buf w1))); [lia|].
  simpl_world. rewrite L1. simpl_world.
  rewrite u32_id by u32_lia.
  split; [reflexivity|]. split; [reflexivity|].
  exact C1.
Qed.

(** X4.  Round trip through the buffer: on a well-formed Bounded buffer
    with the cursor at the end of the content, the [sizeof(T)] bytes [b]
    appended, the cursor shifted back by [sizeof(T)] (that is, forward by
    [2^32 - sizeof(T)]) and a typed read of [T] give back [b], with the
    cursor at the end of the content again.  For appends that the allocator
    grants and sizes that stay 32-bit values. *)
Theorem append_shift_read_roundtrip (t : prim) (b : list byte) (w : world) :
  0 < sizeof_long_double ->
  wf (buf w) -> Bounded (buf w) -> pos (buf w) = size (buf w) ->
  blen b = sizeof t ->
  size (buf w) + sizeof t + 512 < U32_MOD ->
  alloc_ok (length (trace w)) (size (buf w) + sizeof t + 512) = true ->
  exists w3,
    (s_append b (sizeof t) ;;;
     s_shift_position_bang (U32_MOD - sizeof t) ;;;
     s_get_bang t) w = Ret b w3 /\
    pos (buf w3) = size (buf w3) /\
    content (buf w3) = content (buf w) ++ b.
Proof.
  intros Hld Hwf B Hps Hlen Hfit Ha.
  destruct (append_read_back t b w Hld Hwf B Hps Hlen Hfit Ha)
    as (w1 & w2 & w3 & E1 & E2 & _ & E3 & P3 & C3).
  exists w3. unfold bind. rewrite E1, E2. split; [exact E3|].
  split; [|exact C3].
  rewrite P3.
  assert (Hwf3 : wf (buf w3)).
  { assert (R : run_op (Read t) w2 = Ret tt w3)
      by (cbn [run_op]; unfold bind; rewrite E3; reflexivity).
    refine (run_op_wf _ _ _ _ R).
    assert (R2 : run_op (ShiftCursor (U32_MOD - sizeof t)) w1 = Ret tt w2)
      by (cbn [run_op]; unfold bind; rewrite E2; reflexivity).
    refine (run_op_wf _ _ _ _ R2).
    pose proof (s_append_ret _ _ _ _ Hwf E1) as A1. apply A1. }
  pose proof (content_blen _ Hwf3) as L3.
  pose proof (content_blen _ Hwf) as L.
  rewrite C3, blen_app in L3. lia.
Qed.

(** X5.  The two typed writers: a byte written with [s_append_u8] is the
    byte [s_get_u8_bang] reads once the cursor is moved back by one, and
    the four bytes of a [u32] written with [s_append_u32] are the four
    bytes [s_get_u32_bang] reads once the cursor is moved back by four. *)
Theorem typed_write_read_roundtrip (w : world) (x : byte) (v : Z) :
  0 < sizeof_long_double ->
  wf (buf w) -> Bounded (buf w) -> pos (buf w) = size (buf w) ->
  blen (u32_bytes v) = 4 ->
  size (buf w) + 4 + 512 < U32_MOD ->
  (forall n, alloc_ok (length (trace w)) n = true) ->
  (exists w3,
     (s_append_u8 x ;;; s_shift_position_bang (U32_MOD - 1) ;;; s_get_u8_bang) w
       = Ret x w3 /\
     content (buf w3) = content (buf w) ++ [x]) /\
  (exists w3,
     (s_append_u32 v ;;; s_shift_position_bang (U32_MOD - 4) ;;; s_get_u32_bang) w
       = Ret (u32_bytes v) w3 /\
     content (buf w3) = content (buf w) ++ u32_bytes v).
Proof.
  intros Hld Hwf B Hps Hv Hfit Ha. split.
  - destruct (append_read_back T_u8 [x] w Hld Hwf B Hps eq_refl)
      as (w1 & w2 & w3 & E1 & E2 & _ & E3 & _ & C3);
      [cbn [sizeof]; unfold sizeof_u8; lia | apply Ha |].
    cbn [sizeof] in *. unfold sizeof_u8 in *.
    exists w3. unfold s_append_u8, bind. rewrite E1, E2.
    split; [|exact C3].
    cbn [s_get_bang] in E3. unfold bind in E3.
    destruct (s_get_u8_bang w2) as [x' w'| |]; try discriminate.
    unfold ret in E3. injection E3 as -> ->. reflexivity.
  - destruct (append_read_back T_u32 (u32_bytes v) w Hld Hwf B Hps Hv)
      as (w1 & w2 & w3 & E1 & E2 & _ & E3 & _ & C3);
      [cbn [sizeof]; unfold sizeof_u32; lia | apply Ha |].
    cbn [sizeof s_get_bang] in *. unfold sizeof_u32 in *.
    exists w3. unfold s_append_u32, sizeof_u32, bind. rewrite E1, E2.
    split; [exact E3|exact C3].
Qed.

(** ** The accessors built on the guard *)

(** Reading inside the content. *)
Lemma load_content s off n :
  wf s -> 0 <= off -> 0 <= n -> off + n <= size s ->
  0 < off + n ->
  load (data s) off n = Some (slice (content s) off n).
Proof.
  intros [Hsz Hr Hb Hp] Ho Hn Hfit Hne. unfold content.
  destruct (data s) as [d|]; cbn in Hb; [|lia].
  rewrite load_in_range by lia. f_equal.
  unfold slice. cbn [Z.to_nat skipn].
  rewrite skipn_firstn_comm, firstn_firstn. f_equal. lia.
Qed.

(** X6.  [s_end_p] on a well-formed Bounded buffer: with content it returns
    the pointer to the last byte, [data[size - 1]], and changes nothing;
    without content [size - 1] wraps to [2^32 - 1] and the guard raises the
    range error. *)
Theorem s_end_p_last_byte (w : world) :
  wf (buf w) -> Bounded (buf w) ->
  (0 < size (buf w) ->
   s_end_p w = Ret (size (buf w) - 1) w /\
   load (data (buf w)) (size (buf w) - 1) 1 =
     Some (slice (content (buf w)) (size (buf w) - 1) 1)) /\
  (size (buf w) = 0 ->
   s_end_p w = Raise (RangeError_bounds (U32_MOD - 1) 0 0)).
Proof.
  intros Hwf B. unfold s_end_p, bind, get_s.
  rewrite s_get_p_at_pos_bounded_eq by assumption.
  pose proof Hwf as [Hsz Hr Hb Hp].
  split.
  - intros Hne. rewrite Z.add_0_r.
    rewrite !u32_id by (try apply u32_range; u32_lia).
    destruct (Z.geb_spec (size (buf w) - 1) (size (buf w))); [lia|].
    split; [reflexivity|]. apply load_content; auto; lia.
  - intros H0. rewrite H0. reflexivity.
Qed.

(** X7.  The two request accessors on a well-formed Bounded buffer, for a
    request of [req > 0] bytes that ends within 32 bits:
    [s_get_p_req_inclusive] returns the pointer to [data[pos]] exactly when
    the [req] bytes from the cursor are content, and raises otherwise with
    the length [req - 1]; [s_get_p_req] for [req - 1] is the same call, so
    it asks for one byte more than its argument; and a request of zero or
    fewer bytes through [s_get_p_req_inclusive] is [s_get_p]. *)
Theorem s_get_p_req_inclusive_bounded (w : world) (req : Z) :
  wf (buf w) -> Bounded (buf w) ->
  0 < req -> pos (buf w) + req <= U32_MOD ->
  let s := buf w in
  (pos s + req <= size s ->
   s_get_p_req_inclusive req w = Ret (pos s) w /\
   load (data s) (pos s) req = Some (slice (content s) (pos s) req)) /\
  (size s < pos s + req ->
   s_get_p_req_inclusive req w =
     Raise (RangeError_bounds (pos s) (req - 1) (size s))) /\
  s_get_p_req (req - 1) w = s_get_p_req_inclusive req w /\
  (forall r, r <= 0 -> s_get_p_req_inclusive r w = s_get_p w).
Proof.
  intros Hwf B Hreq Hfit. cbv zeta.
  pose proof Hwf as [Hsz Hr Hb Hp].
  assert (Hgt : (req >? 0) = true) by (apply Z.gtb_lt; lia).
  unfold s_get_p_req_inclusive, s_get_p_req, s_get_p, bind, get_s.
  rewrite Hgt.
  rewrite (u32_id (req - 1)) by u32_lia.
  rewrite s_get_p_at_pos_bounded_eq by assumption.
  rewrite u32_id by u32_lia.
  split_and.
  - intros Hin.
    destruct (Z.geb_spec (pos (buf w) + (req - 1)) (size (buf w))); [lia|].
    split; [reflexivity|]. apply load_content; auto; u32_lia.
  - intros Hout.
    destruct (Z.geb_spec (pos (buf w) + (req - 1)) (size (buf w))); [|lia].
    reflexivity.
  - reflexivity.
  - intros r Hr0.
    destruct (Z.gtb_spec r 0); [lia|]. reflexivity.
Qed.

(** X8.  [s_get_u8] peeks: on a well-formed Bounded buffer with the cursor
    inside the content it returns the byte at the cursor and changes
    nothing, so that a second call returns the same byte, and it is the
    byte [s_get_u8_bang] returns while moving the cursor by one; with the
    cursor at or beyond [size] both raise the range error. *)
Theorem s_get_u8_peeks (w : world) :
  wf (buf w) -> Bounded (buf w) ->
  let s := buf w in
  (pos s < size s ->
   exists x,
     slice (content s) (pos s) 1 = [x] /\
     s_get_u8 w = Ret x w /\
     (s_get_u8 ;;; s_get_u8) w = Ret x w /\
     s_get_u8_bang w = Ret x (with_buf (set_pos (pos s + 1) s) w)) /\
  (size s <= pos s ->
   s_get_u8 w = Raise (RangeError_bounds (pos s) 0 (size s)) /\
   s_get_u8_bang w = Raise (RangeError_bounds (pos s) 0 (size s))).
Proof.
  intros Hwf B. cbv zeta.
  pose proof Hwf as [Hsz Hr Hb Hp].
  assert (Hpeek : s_get_u8 w =
            if pos (buf w) >=? size (buf w)
            then Raise (RangeError_bounds (pos (buf w)) 0 (size (buf w)))
            else match load (data (buf w)) (pos (buf w)) 1 with
                 | Some v => Ret (hd x00 v) w
                 | None => Undef
                 end).
  { unfold s_get_u8, s_get_p, bind, get_s.
    rewrite s_get_p_at_pos_bounded_eq by assumption.
    rewrite Z.add_0_r, u32_id by assumption.
    destruct (pos (buf w) >=? size (buf w)); [reflexivity|].
    unfold deref, bind, get_s, defined.
    destruct (load _ _ _); reflexivity. }
  split.
  - intros Hin.
    rewrite load_content in Hpeek by (auto; u32_lia).
    destruct (Z.geb_spec (pos (buf w)) (size (buf w))); [lia|].
    set (v := slice (content (buf w)) (pos (buf w)) 1) in *.
    assert (Hv : blen v = 1).
    { apply slice_length; try u32_lia.
      rewrite content_blen by assumption. lia. }
    exists (hd x00 v). split_and.
    + symmetry. apply hd_singleton. exact Hv.
    + exact Hpeek.
    + unfold bind. rewrite Hpeek. exact Hpeek.
    + unfold s_get_u8_bang, bind. rewrite Hpeek.
      unfold modify_s, ret. simpl_world.
      rewrite u32_id by u32_lia. reflexivity.
  - intros Hout.
    destruct (Z.geb_spec (pos (buf w)) (size (buf w))); [|lia].
    split; [exact Hpeek|].
    unfold s_get_u8_bang, bind. rewrite Hpeek. reflexivity.
Qed.

(** X9.  [s_get_p_at_pos_bang] on a well-formed Bounded buffer, for a
    request whose [offset + req] is a 32-bit value: below [size] it returns
    the pointer to [data[offset]] and adds [req] to the cursor, modulo
    2^32, wherever the cursor was, so that the cursor ends at
    [offset + req] only when it stood at [offset]; at or beyond [size] it
    raises the range error. *)
Theorem s_get_p_at_pos_bang_advances (offset req : Z) (w : world) :
  wf (buf w) -> Bounded (buf w) ->
  0 <= offset -> 0 <= req -> offset + req < U32_MOD ->
  let s := buf w in
  (offset + req < size s ->
   s_get_p_at_pos_bang offset req w =
     Ret offset (with_buf (set_pos (u32 (pos s + req)) s) w) /\
   (u32 (pos s + req) = offset + req <-> pos s = offset)) /\
  (size s <= offset + req ->
   s_get_p_at_pos_bang offset req w =
     Raise (RangeError_bounds offset req (size s))).
Proof.
  intros Hwf B Ho Hreq Hfit. cbv zeta.
  pose proof Hwf as [Hsz Hr Hb Hp].
  unfold s_get_p_at_pos_bang, bind.
  rewrite s_get_p_at_pos_bounded_eq by assumption.
  rewrite u32_id by u32_lia.
  split.
  - intros Hin.
    destruct (Z.geb_spec (offset + req) (size (buf w))); [lia|].
    split; [reflexivity|].
    assert (Hsum : u32 (pos (buf w) + req) = pos (buf w) + req
                   \/ u32 (pos (buf w) + req) = pos (buf w) + req - U32_MOD).
    { destruct (Z_lt_ge_dec (pos (buf w) + req) U32_MOD).
      - left. apply u32_id. u32_lia.
      - right. unfold u32. symmetry.
        apply (Z.mod_unique_pos _ _ 1); u32_lia. }
    split.
    + intros E. destruct Hsum as [Hs|Hs]; rewrite Hs in E; u32_lia.
    + intros ->. apply u32_id. u32_lia.
  - intros Hout.
    destruct (Z.geb_spec (offset + req) (size (buf w))); [|lia].
    reflexivity.
Qed.

(** ** Compaction with the cursor beyond the content *)

(** X10.  Compaction never returns on a well-formed buffer whose cursor is
    beyond the content: [size - pos] wraps to [size - pos + 2^32], the
    allocator is asked for that many bytes, and the call raises when the
    request is refused and copies from outside the block when it is
    granted. *)
Theorem s_shift_left_cursor_beyond (w : world) :
  wf (buf w) -> size (buf w) < pos (buf w) ->
  let left := size (buf w) - pos (buf w) + U32_MOD in
  (alloc_ok (length (trace w)) left = false ->
   s_shift_left w = Raise (NoMemError left)) /\
  (alloc_ok (length (trace w)) left = true -> s_shift_left w = Undef) /\
  (forall w', s_shift_left w <> Ret tt w').
Proof.
  intros [Hsz Hr Hb Hp] Hbeyond. cbv zeta.
  rewrite s_shift_left_eq. cbv zeta.
  rewrite u32_wrap_neg by u32_lia.
  destruct (Z.eqb_spec (size (buf w) - pos (buf w) + U32_MOD) 0); [u32_lia|].
  assert (Hcopy : COPY (data (buf w)) (pos (buf w))
            (Some (resize None (size (buf w) - pos (buf w) + U32_MOD))) 0
            (size (buf w) - pos (buf w) + U32_MOD) = None).
  { unfold COPY.
    destruct (load _ _ _) as [bs|] eqn:L; [|reflexivity].
    apply load_Some in L. destruct L as (d & D & _ & _ & Hfit & _).
    rewrite D in Hb. cbn in Hb. u32_lia. }
  rewrite Hcopy.
  split_and.
  - intros ->. reflexivity.
  - intros ->. reflexivity.
  - intros w'. destruct (alloc_ok _ _); discriminate.
Qed.

(** ** Releasing the storage *)

(** X11.  [s_free_data_if_not_mine] leaves a Borrowed buffer as it is, and
    frees nothing.  On an Owned buffer it frees the block once when there
    is one, sets [data] to NULL and leaves [size], [rsize] and [pos]
    alone; a second call frees nothing and changes nothing. *)
Theorem s_free_data_if_not_mine_once (w : world) :
  (Borrowed (buf w) -> s_free_data_if_not_mine w = Ret tt w) /\
  (Owned (buf w) ->
   exists w',
     s_free_data_if_not_mine w = Ret tt w' /\
     buf w' = set_data None (buf w) /\
     input w' = input w /\
     trace w' = match data (buf w) with
                | Some _ => EvFree :: trace w
                | None => trace w
                end /\
     s_free_data_if_not_mine w' = Ret tt w').
Proof.
  unfold Borrowed, Owned, s_free_data_if_not_mine, bind, get_s. split.
  - intros Hb.
    destruct (Z.eqb_spec (Z.land (flags (buf w)) FLAG_NOT_MINE) 0);
      [contradiction|reflexivity].
  - intros Ho. rewrite Ho. cbn [Z.eqb].
    destruct (data (buf w)) as [d|] eqn:D.
    + eexists. split; [reflexivity|]. simpl_world.
      rewrite Ho. cbn [Z.eqb]. split_and; reflexivity.
    + eexists. split; [reflexivity|]. simpl_world.
      rewrite Ho. cbn [Z.eqb]. split_and; reflexivity.
Qed.

(** ** Bytes of the stream *)

Lemma ready_bytes_skipn k cs rest :
  ready_bytes (match skipn k cs with
               | [] => rest
               | later => Ready later :: rest
               end) = skipn k cs ++ ready_bytes rest.
Proof. destruct (skipn k cs); reflexivity. Qed.

(** A [read] takes the bytes it hands over off the front of the stream,
    and no others. *)
Lemma sys_read_bytes b count w r w1 :
  sys_read b count w = Ret r w1 ->
  (fst r <= 0 -> ready_bytes (input w1) = ready_bytes (input w)) /\
  (0 < fst r ->
   ready_bytes (input w) = slice (snd r) 0 (fst r) ++ ready_bytes (input w1)).
Proof.
  unfold sys_read. destruct (input w) as [|[|cs] rest] eqn:I.
  - intros E. injection E as <- <-. cbn. split; [reflexivity|lia].
  - intros E. injection E as <- <-. cbn. split; [reflexivity|lia].
  - cbv zeta.
    set (k := Z.to_nat (Z.min (Z.min count READ_MAX) (blen cs))).
    destruct (Z.leb_spec (Z.of_nat k) (blen b)) as [Hk|]; [|discriminate].
    intros E. injection E as <- <-. cbn [fst snd input].
    rewrite ready_bytes_skipn. cbn [ready_bytes].
    assert (Hkc : (k <= length cs)%nat) by (unfold k, blen; lia).
    split.
    + intros H0. assert (Hk0 : k = 0%nat) by lia.
      rewrite Hk0. reflexivity.
    + intros _. unfold slice. cbn [Z.to_nat skipn]. rewrite Nat2Z.id.
      rewrite firstn_app, length_firstn.
      replace (k - Nat.min k (length cs))%nat with 0%nat by lia.
      rewrite firstn_O, app_nil_r, firstn_firstn, Nat.min_id.
      rewrite app_assoc, firstn_skipn. reflexivity.
Qed.

Lemma s_read_stream_iter_bytes end_ w r w' :
  wf (buf w) -> s_read_stream_iter end_ w = Ret r w' ->
  exists bs,
    content (buf w') = content (buf w) ++ bs /\
    ready_bytes (input w) = bs ++ ready_bytes (input w').
Proof.
  intros Hwf. rewrite s_read_stream_iter_eq. cbv zeta.
  destruct (alloc_ok _ _); [|discriminate].
  destruct (sys_read _ _ _) as [rd w1| |] eqn:R; try discriminate.
  pose proof (sys_read_bytes _ _ _ _ _ R) as (B0 & B1).
  apply sys_read_ret in R. cbn [buf trace input] in *.
  destruct R as (Eb & _ & Hrc).
  destruct (Z.leb_spec (fst rd) 0) as [Hle|Hgt].
  - intros E. injection E as <- <-. cbn [buf input].
    exists []. rewrite app_nil_r, Eb. split; [reflexivity|].
    symmetry. apply B0. exact Hle.
  - destruct Hrc as [[H _]|(Hc & Hmax & Hb & _)]; [lia|].
    rewrite u32_id by (unfold READ_MAX in *; u32_lia).
    destruct (s_append _ _ _) as [[] w2| |] eqn:A; try discriminate.
    apply s_append_ret in A; [|rewrite Eb; exact Hwf]. cbv zeta in A.
    rewrite Eb in A.
    destruct A as (_ & _ & _ & _ & _ & _ & Ai & Ac & _).
    intros E. injection E as <- <-. cbn [buf input].
    exists (slice (snd rd) 0 (fst rd)). split; [exact Ac|].
    rewrite Ai. apply B1. exact Hgt.
Qed.

Lemma s_read_stream_loop_bytes fuel end_ w r w' :
  wf (buf w) -> s_read_stream_loop fuel end_ w = Some (Ret r w') ->
  exists bs,
    content (buf w') = content (buf w) ++ bs /\
    ready_bytes (input w) = bs ++ ready_bytes (input w').
Proof.
  revert w. induction fuel as [|fuel IH]; intros w Hwf; [discriminate|].
  cbn [s_read_stream_loop].
  destruct (size (buf w) <? end_).
  - destruct (s_read_stream_iter end_ w) as [[rv|] w1| |] eqn:I;
      try discriminate.
    + intros E. injection E as <- <-.
      exact (s_read_stream_iter_bytes _ _ _ _ Hwf I).
    + intros L.
      destruct (s_read_stream_iter_bytes _ _ _ _ Hwf I) as (bs & C1 & R1).
      apply s_read_stream_iter_ret in I; [|assumption].
      destruct I as [(E & _)|(_ & Hwf1 & _)]; [discriminate|].
      destruct (IH _ Hwf1 L) as (bs' & C' & R').
      exists (bs ++ bs'). split.
      * rewrite C', C1. symmetry. apply app_assoc.
      * rewrite R1, R'. apply app_assoc.
  - intros E. injection E as <- <-.
    exists []. rewrite app_nil_r. auto.
Qed.

Lemma s_read_stream_bytes end_ w rv w' :
  wf (buf w) -> s_read_stream end_ w = Ret rv w' ->
  exists bs,
    content (buf w') = content (buf w) ++ bs /\
    ready_bytes (input w) = bs ++ ready_bytes (input w').
Proof.
  intros Hwf. unfold s_read_stream. cbv zeta.
  destruct (s_read_stream_loop _ _ _) as [[[rv'|] w1| |]|] eqn:L;
    try discriminate.
  - intros E. injection E as <- <-.
    exact (s_read_stream_loop_bytes _ _ _ _ _ Hwf L).
  - unfold bind, modify_s, ret. intros E. injection E as <- <-.
    exact (s_read_stream_loop_bytes _ _ _ _ _ Hwf L).
Qed.

Lemma world_eta w : with_buf (set_pos (pos (buf w)) (buf w)) w = w.
Proof. destruct w as [[d sz p r f fdv tr] i t]. reflexivity. Qed.

(** X12.  A fill of a well-formed buffer that returns has taken bytes off
    the front of the stream and put them, in their order and none lost,
    behind the content, which is otherwise as it was.  It returned [1] with
    [size >= end_] and the cursor where it was, or [-1] with [size < end_]
    and the cursor moved by the number of bytes taken.  When [size >= end_]
    at the call, it returns [1] at once and nothing changes. *)
Theorem s_read_stream_takes_stream_prefix (end_ : Z) (w : world) :
  (wf (buf w) -> forall rv w',
     s_read_stream end_ w = Ret rv w' ->
     exists bs,
       content (buf w') = content (buf w) ++ bs /\
       ready_bytes (input w) = bs ++ ready_bytes (input w') /\
       size (buf w') = size (buf w) + blen bs /\
       flags (buf w') = flags (buf w) /\
       (rv = 1 /\ end_ <= size (buf w') /\ pos (buf w') = pos (buf w) \/
        rv = -1 /\ size (buf w') < end_ /\
          pos (buf w') = u32 (pos (buf w) + blen bs))) /\
  (end_ <= size (buf w) -> s_read_stream end_ w = Ret 1 w).
Proof.
  split.
  - intros Hwf rv w' E.
    destruct (s_read_stream_bytes _ _ _ _ Hwf E) as (bs & C & R).
    destruct (s_read_stream_ret _ _ _ _ Hwf E)
      as (_ & F & _ & bs' & C' & S' & Hrv).
    assert (bs' = bs) by (rewrite C in C'; exact (app_inv_head _ _ _ (eq_sym C'))).
    subst bs'. exists bs. split_and; auto.
    destruct Hrv as [(-> & P & Hend)|(-> & P & Hlt)]; [left|right]; auto.
  - intros Hge. unfold s_read_stream. cbn [s_read_stream_loop].
    destruct (Z.ltb_spec (size (buf w)) end_); [lia|].
    unfold bind, modify_s, ret. rewrite world_eta. reflexivity.
Qed.

(** The guard when it returns: what it took off the stream is behind the
    content; on a Bounded buffer it took nothing. *)
Lemma s_get_p_at_pos_bytes p req w r w' :
  wf (buf w) -> s_get_p_at_pos p req w = Ret r w' ->
  (exists bs,
     content (buf w') = content (buf w) ++ bs /\
     ready_bytes (input w) = bs ++ ready_bytes (input w')) /\
  (Bounded (buf w) -> w' = w).
Proof.
  intros Hwf. rewrite s_get_p_at_pos_eq. unfold Bounded.
  destruct (u32 (p + req) >=? size (buf w)).
  - destruct (Z.eqb_spec (Z.land (flags (buf w)) FLAG_STREAM) 0) as [E0|N0];
      cbn [negb]; [discriminate|].
    destruct (s_read_stream _ w) as [rc w1| |] eqn:R; try discriminate.
    destruct (rc <? 0); [discriminate|].
    intros E. injection E as <- <-.
    split; [exact (s_read_stream_bytes _ _ _ _ Hwf R)|contradiction].
  - intros E. injection E as <- <-. split; [|reflexivity].
    exists []. rewrite app_nil_r. auto.
Qed.

(** X13.  The guard never moves the cursor and never changes a byte of the
    content, Bounded or Streaming: when [s_get_p_at_pos] returns on a
    well-formed buffer, it returns the offset it was given, [pos] is what
    it was, and the content is the old content followed by the bytes it
    took off the front of the stream, which on a Bounded buffer are none:
    there the whole world is unchanged. *)
Theorem s_get_p_at_pos_keeps_cursor (p req : Z) (w w' : world) (r : Z) :
  wf (buf w) ->
  s_get_p_at_pos p req w = Ret r w' ->
  r = p /\ pos (buf w') = pos (buf w) /\ wf (buf w') /\
  (exists bs,
     content (buf w') = content (buf w) ++ bs /\
     ready_bytes (input w) = bs ++ ready_bytes (input w')) /\
  (Bounded (buf w) -> w' = w).
Proof.
  intros Hwf E.
  destruct (s_get_p_at_pos_ret _ _ _ _ _ Hwf E) as (-> & Hwf' & _ & P & _).
  destruct (s_get_p_at_pos_bytes _ _ _ _ _ Hwf E) as (Hbs & Hb).
  split_and; auto.
Qed.

(** X14.  A typed read that returns, on a well-formed buffer in either
    mode, returns the [sizeof(T)] bytes of the content at the cursor and
    leaves the cursor [sizeof(T)] further, still within the content; the
    content is the old content followed by what was taken off the front of
    the stream. *)
Theorem s_get_bang_reads_at_cursor (t : prim) (w w' : world) (v : list byte) :
  0 < sizeof_long_double ->
  wf (buf w) ->
  s_get_bang t w = Ret v w' ->
  v = slice (content (buf w')) (pos (buf w)) (sizeof t) /\
  blen v = sizeof t /\
  pos (buf w') = pos (buf w) + sizeof t /\
  pos (buf w') <= size (buf w') /\
  exists bs,
    content (buf w') = content (buf w) ++ bs /\
    ready_bytes (input w) = bs ++ ready_bytes (input w').
Proof.
  intros Hld Hwf. rewrite s_get_bang_eq.
  pose proof (sizeof_pos t Hld) as Hn.
  destruct (s_get_p_at_pos _ _ w) as [r w1| |] eqn:G; try discriminate.
  destruct (load _ _ _) as [v'|] eqn:L; [|discriminate].
  intros E. injection E as <- <-. simpl_world.
  destruct (s_get_p_at_pos_bytes _ _ _ _ _ Hwf G) as (Hbs & _).
  apply s_get_p_at_pos_ret in G; [|assumption].
  destruct G as (-> & Hwf1 & _ & P & S & Hguard).
  pose proof Hwf1 as [Hsz Hr Hb Hp].
  pose proof L as L'.
  apply load_Some in L'. destruct L' as (d & D & _ & _ & Hfit & _).
  rewrite D in Hb. cbn in Hb.
  replace (pos (buf w) + (sizeof t - 1) + 1)
    with (pos (buf w) + sizeof t) in Hguard by lia.
  destruct Hwf as [_ _ _ Hp0].
  rewrite !u32_id in Hguard by u32_lia.
  assert (Hin : pos (buf w) + sizeof t <= size (buf w1)) by lia.
  rewrite load_content in L by (auto; u32_lia).
  injection L as <-.
  rewrite P, u32_id by u32_lia.
  split_and; auto.
  apply slice_length; try u32_lia.
  rewrite content_blen by assumption. lia.
Qed.

(** ** When the fill stays inside its scratch block *)

Lemma sys_read_fits b count w :
  0 <= count <= blen b -> exists r w1, sys_read b count w = Ret r w1.
Proof.
  intros Hc. unfold sys_read.
  destruct (input w) as [|[|cs] rest]; try (do 2 eexists; reflexivity).
  cbv zeta.
  destruct (Z.leb_spec
    (Z.of_nat (Z.to_nat (Z.min (Z.min count READ_MAX) (blen cs)))) (blen b));
    [do 2 eexists; reflexivity|lia].
Qed.

Lemma s_read_stream_iter_safe end_ w :
  wf (buf w) -> (forall t n, alloc_ok t n = true) ->
  end_ + 512 < U32_MOD ->
  size (buf w) < end_ -> 2 * (end_ - size (buf w)) <= size (buf w) ->
  exists r w', s_read_stream_iter end_ w = Ret r w'.
Proof.
  intros Hwf Ha Hend Hlt Hhalf.
  pose proof Hwf as [Hsz Hr Hb Hp].
  rewrite s_read_stream_iter_eq. cbv zeta.
  rewrite Ha.
  rewrite (u32_id (end_ - size (buf w))) by u32_lia.
  rewrite u32_id by u32_lia.
  destruct (sys_read_fits
              (resize None (size (buf w) - (end_ - size (buf w))))
              (end_ - size (buf w))
              (mk_world (buf w) (input w)
                 (EvAlloc (size (buf w) - (end_ - size (buf w))) :: trace w)))
    as (rd & w1 & R).
  { rewrite resize_blen; lia. }
  rewrite R.
  apply sys_read_ret in R. cbn [buf trace input] in R.
  destruct R as (Eb & _ & Hrc).
  destruct (Z.leb_spec (fst rd) 0); [do 2 eexists; reflexivity|].
  destruct Hrc as [[H0 _]|(Hc & Hmax & Hfit & _)]; [lia|].
  rewrite u32_id by u32_lia.
  destruct (s_append_returns (snd rd) (fst rd) w1) as (w2 & A).
  - rewrite Eb. exact Hwf.
  - lia.
  - rewrite Eb. lia.
  - apply Ha.
  - rewrite A. do 2 eexists. reflexivity.
Qed.

Lemma s_read_stream_loop_safe fuel end_ : forall w o,
  wf (buf w) -> (forall t n, alloc_ok t n = true) ->
  end_ + 512 < U32_MOD ->
  2 * (end_ - size (buf w)) <= size (buf w) ->
  s_read_stream_loop fuel end_ w = Some o ->
  exists r w', o = Ret r w'.
Proof.
  induction fuel as [|fuel IH]; intros w o Hwf Ha Hend Hhalf; [discriminate|].
  cbn [s_read_stream_loop].
  destruct (Z.ltb_spec (size (buf w)) end_) as [Hlt|Hge].
  - destruct (s_read_stream_iter_safe end_ w Hwf Ha Hend Hlt Hhalf)
      as (r & w1 & I).
    rewrite I. destruct r as [rv|].
    + intros E. injection E as <-. do 2 eexists. reflexivity.
    + apply s_read_stream_iter_ret in I; [|assumption].
      destruct I as [(E & _)|(_ & Hwf1 & _ & _ & bs & Hbs & _ & S1 & _)];
        [discriminate|].
      apply IH; auto. lia.
  - intros E. injection E as <-. do 2 eexists. reflexivity.
Qed.

(** X15.  A fill that misses at most half of what the buffer holds stays
    inside its scratch block: on a well-formed buffer with
    [2 * (end_ - size) <= size], an allocator that grants every request and
    [end_ + 512] a 32-bit value, [s_read_stream] returns, with [1] or with
    [-1], whatever the stream delivers. *)
Theorem s_read_stream_safe_zone (end_ : Z) (w : world) :
  wf (buf w) -> (forall t n, alloc_ok t n = true) ->
  end_ + 512 < U32_MOD ->
  2 * (end_ - size (buf w)) <= size (buf w) ->
  exists rv w', s_read_stream end_ w = Ret rv w' /\ (rv = 1 \/ rv = -1).
Proof.
  intros Hwf Ha Hend Hhalf.
  destruct (s_read_stream_total end_ w Hwf) as (o & L).
  destruct (s_read_stream_loop_safe _ _ _ _ Hwf Ha Hend Hhalf L)
    as (r & w1 & ->).
  unfold s_read_stream. cbv zeta. rewrite L.
  destruct r as [rv|].
  - exists rv, w1. split; [reflexivity|].
    apply s_read_stream_loop_ret in L; [|assumption].
    destruct L as (_ & _ & _ & bs & _ & _ & _ & [(E & _)|(E & _)]);
      [discriminate|].
    injection E as ->. right. reflexivity.
  - eexists. eexists. split; [reflexivity|]. left. reflexivity.
Qed.

(** A turn whose read finds all the missing bytes ready. *)
Lemma s_read_stream_iter_one_read end_ w cs rest :
  wf (buf w) -> (forall t n, alloc_ok t n = true) ->
  end_ + 512 < U32_MOD ->
  size (buf w) < end_ -> 2 * (end_ - size (buf w)) <= size (buf w) ->
  end_ - size (buf w) <= READ_MAX ->
  input w = Ready cs :: rest -> end_ - size (buf w) <= blen cs ->
  let k := Z.to_nat (end_ - size (buf w)) in
  exists w2,
    s_read_stream_iter end_ w = Ret None w2 /\
    wf (buf w2) /\ size (buf w2) = end_ /\
    content (buf w2) = content (buf w) ++ firstn k cs /\
    input w2 = match skipn k cs with
               | [] => rest
               | later => Ready later :: rest
               end.
Proof.
  intros Hwf Ha Hend Hlt Hhalf Hmax I Hcs. cbv zeta.
  pose proof Hwf as [Hsz Hr Hb Hp].
  rewrite s_read_stream_iter_eq. cbv zeta.
  rewrite Ha.
  rewrite (u32_id (end_ - size (buf w))) by u32_lia.
  rewrite u32_id by u32_lia.
  unfold sys_read. cbn [input]. rewrite I. cbv zeta.
  replace (Z.min (Z.min (end_ - size (buf w)) READ_MAX) (blen cs))
    with (end_ - size (buf w)) by lia.
  set (k := Z.to_nat (end_ - size (buf w))).
  assert (Hk : Z.of_nat k = end_ - size (buf w)) by (unfold k; lia).
  rewrite resize_blen by lia.
  destruct (Z.leb_spec (Z.of_nat k) (size (buf w) - (end_ - size (buf w))));
    [|lia].
  cbn [fst snd]. rewrite Hk.
  destruct (Z.leb_spec (end_ - size (buf w)) 0); [lia|].
  rewrite u32_id by u32_lia.
  match goal with
  | |- context [s_append ?sfx ?n ?w1] =>
      destruct (s_append_returns sfx n w1) as (w2 & A);
        [exact Hwf | | cbn [buf]; lia | apply Ha | ];
        [ | pose proof (s_append_ret sfx n w1 w2 Hwf A) as R; rewrite A ]
  end.
  - rewrite blen_app.
    pose proof (blen_nonneg
      (skipn k (resize None (size (buf w) - (end_ - size (buf w)))))) as Hs.
    unfold blen in *. rewrite length_firstn. lia.
  - cbv zeta in R. cbn [buf input] in R.
    destruct R as (_ & Hwf2 & S2 & _ & _ & _ & I2 & C2 & _).
    eexists. split; [reflexivity|]. cbn [buf input].
    split_and; auto; try lia.
    rewrite C2. f_equal. unfold slice. cbn [Z.to_nat skipn]. fold k.
    rewrite firstn_app, length_firstn.
    replace (k - Nat.min k (length cs))%nat with 0%nat
      by (unfold blen in Hcs; lia).
    rewrite firstn_O, app_nil_r, firstn_firstn, Nat.min_id. reflexivity.
Qed.

(** X16.  A fill that one read satisfies: on a well-formed buffer that
    misses at most half of what it holds, with the missing
    [end_ - size] bytes ready on the stream, [s_read_stream] returns [1]
    with exactly those bytes appended, [size = end_], the cursor where it
    was, and the rest of the stream still ready. *)
Theorem s_read_stream_one_read (end_ : Z) (w : world) (cs : list byte)
    (rest : list chunk) :
  wf (buf w) -> (forall t n, alloc_ok t n = true) ->
  end_ + 512 < U32_MOD ->
  size (buf w) < end_ -> 2 * (end_ - size (buf w)) <= size (buf w) ->
  end_ - size (buf w) <= READ_MAX ->
  input w = Ready cs :: rest -> end_ - size (buf w) <= blen cs ->
  let k := Z.to_nat (end_ - size (buf w)) in
  exists w',
    s_read_stream end_ w = Ret 1 w' /\
    content (buf w') = content (buf w) ++ firstn k cs /\
    size (buf w') = end_ /\ pos (buf w') = pos (buf w) /\
    ready_bytes (input w') = skipn k cs ++ ready_bytes rest.
Proof.
  intros Hwf Ha Hend Hlt Hhalf Hmax I Hcs. cbv zeta.
  destruct (s_read_stream_iter_one_read end_ w cs rest
              Hwf Ha Hend Hlt Hhalf Hmax I Hcs)
    as (w2 & E & Hwf2 & S2 & C2 & I2). cbv zeta in *.
  unfold s_read_stream. cbv zeta. rewrite I. cbn [pending].
  assert (Hlen : (0 < length cs)%nat) by (unfold blen in Hcs; lia).
  destruct (length cs + pending rest)%nat as [|fuel] eqn:F; [lia|].
  cbn [s_read_stream_loop].
  destruct (Z.ltb_spec (size (buf w)) end_); [|lia].
  rewrite E.
  destruct (Z.ltb_spec (size (buf w2)) end_); [lia|].
  unfold bind, modify_s, ret.
  eexists. split; [reflexivity|]. simpl_world.
  split_and; auto.
  rewrite I2. apply ready_bytes_skipn.
Qed.

End Platform.

(** * The functions on concrete buffers

    The platform below grants every allocation, fills fresh memory with
    zeros, has [FLAG_STREAM = 2] and a [long double] of 16 bytes. *)

(** C1, counterexample: on the buffer [s_create] returns, one
    [s_shift_position_bang(s, 1)] returns with [pos = 1] and [size = 0]. *)
Lemma cursor_shift_breaks_pos_le_size :
  created_empty created /\
  exists w',
    run grant_all zero_fill 2 16 [ShiftCursor 1] (world_of created []) = Ret tt w' /\
    ~ (pos (buf w') <= size (buf w') <= rsize (buf w')).
Proof.
  split; [repeat split|].
  eexists. split; [reflexivity|]. cbn. lia.
Qed.

(** C1, witness: an append, a peek and a compaction on the buffer
    [s_create] returns; the invariant after the first two calls. *)
Lemma run_keeps_size_within_capacity_witness :
  0 < 16 /\ created_empty created /\
  exists w1,
    run grant_all zero_fill 2 16 [Append ABCD; PeekAt 0 1] (world_of created [])
      = Ret tt w1 /\
    size (buf w1) <= rsize (buf w1) /\
    block_len (data (buf w1)) = rsize (buf w1) /\
    (forallb keeps_cursor [Append ABCD; PeekAt 0 1] = true ->
     pos (buf w1) <= size (buf w1)).
Proof.
  split; [lia|]. split; [repeat split|].
  eapply (run_keeps_size_within_capacity grant_all zero_fill 2 16
            [Append ABCD; PeekAt 0 1] [Compact] (world_of created []));
    [lia | repeat split | lazy; reflexivity].
Defined.

(** C2, counterexample: compaction of ["ABCD"] with the cursor at 1 leaves
    ["BCD"] and the cursor at 1, not at 0; compaction of the same bytes with
    the cursor at 4 releases the block and leaves the cursor at 4, beyond
    [size = 0]. *)
Lemma s_shift_left_keeps_pos :
  (exists w',
     s_shift_left grant_all zero_fill (world_of (holding ABCD 1 0) []) = Ret tt w' /\
     content (buf w') = [x42; x43; x44] /\
     pos (buf w') = 1 /\ pos (buf w') <> 0) /\
  (exists w',
     s_shift_left grant_all zero_fill (world_of (holding ABCD 4 0) []) = Ret tt w' /\
     data (buf w') = None /\ size (buf w') = 0 /\
     pos (buf w') = 4 /\ buf w' <> created).
Proof.
  split; eexists; (split; [lazy; reflexivity|]); cbn; split_and;
    try reflexivity; discriminate.
Qed.

(** C2, witness. *)
Lemma s_shift_left_compacts_witness :
  wf (buf (world_of (holding ABCD 1 0) [])) /\
  exists w',
    s_shift_left grant_all zero_fill (world_of (holding ABCD 1 0) []) = Ret tt w' /\
    data (buf w') = Some [x42; x43; x44] /\
    size (buf w') = 3 /\ rsize (buf w') = 3 /\ pos (buf w') = 1.
Proof.
  assert (Hwf : wf (buf (world_of (holding ABCD 1 0) [])))
    by (constructor; cbn; u32_lia).
  split; [exact Hwf|].
  destruct (s_shift_left_compacts grant_all zero_fill
              (world_of (holding ABCD 1 0) []) Hwf ltac:(cbn; lia))
    as (Hlt & _).
  destruct (Hlt ltac:(cbn; lia) eq_refl) as (w' & d & E & D & D' & _ & S & R & P).
  exists w'. injection D as <-. split_and; assumption.
Defined.

(** C5, counterexample: with 10 bytes reserved and 5 in use, a request for
    5 more, which the slack covers exactly, grows the block to 522 bytes. *)
Lemma s_alloc_grows_at_boundary :
  let w := world_of (partly (ABCD ++ ABCD ++ [x41; x42]) 5 5 0) [] in
  rsize (buf w) - size (buf w) = 5 /\
  exists w',
    s_alloc grant_all zero_fill 5 w = Ret tt w' /\
    trace w' = [EvAlloc 522] /\ rsize (buf w') = 522 /\ w' <> w.
Proof.
  cbv zeta. split; [reflexivity|].
  eexists. split; [lazy; reflexivity|]. cbn. split_and; try reflexivity.
  discriminate.
Qed.

(** C5, witness: the same buffer and a request for 3 bytes. *)
Lemma s_alloc_ensures_capacity_witness :
  let w := world_of (partly (ABCD ++ ABCD ++ [x41; x42]) 5 5 0) [] in
  0 <= size (buf w) /\ 0 <= 3 /\ size (buf w) + 3 + 512 < U32_MOD /\
  s_alloc grant_all zero_fill 3 w = Ret tt w.
Proof.
  cbv zeta.
  assert (H1 : 0 <= 5) by lia.
  assert (H2 : 0 <= 3) by lia.
  assert (H3 : 5 + 3 + 512 < U32_MOD) by (unfold U32_MOD; lia).
  split_and; try assumption.
  apply (s_alloc_ensures_capacity grant_all zero_fill
           (world_of (partly (ABCD ++ ABCD ++ [x41; x42]) 5 5 0) []) 3 H1 H2 H3).
  cbn. lia.
Defined.

(** C6, counterexample: after compaction of ["ABCD"] with the cursor at 1
    the content is ["BCD"], the cursor still at 1, and a second compaction
    leaves ["CD"]. *)
Lemma s_shift_left_twice_drops_more :
  exists w1 w2,
    s_shift_left grant_all zero_fill (world_of (holding ABCD 1 0) []) = Ret tt w1 /\
    s_shift_left grant_all zero_fill w1 = Ret tt w2 /\
    content (buf w1) = [x42; x43; x44] /\
    content (buf w2) = [x43; x44] /\
    buf w2 <> buf w1.
Proof.
  do 2 eexists. split; [lazy; reflexivity|]. split; [lazy; reflexivity|].
  cbn. split_and; try reflexivity. discriminate.
Qed.

(** C6, witness: ["ABCD"] with the cursor at 1, where the second
    compaction discards one more byte; with the cursor at 0, where it
    changes nothing; and with the cursor at 3, where it does not return. *)
Lemma s_shift_left_content_witness :
  (wf (buf (world_of (holding ABCD 1 0) [])) /\
   exists w1 w2,
     s_shift_left grant_all zero_fill (world_of (holding ABCD 1 0) []) = Ret tt w1 /\
     content (buf w1) = [x42; x43; x44] /\
     s_shift_left grant_all zero_fill w1 = Ret tt w2 /\
     content (buf w2) = [x43; x44] /\ buf w2 <> buf w1) /\
  (exists w1 w2,
     s_shift_left grant_all zero_fill (world_of (holding ABCD 0 0) []) = Ret tt w1 /\
     content (buf w1) = ABCD /\
     s_shift_left grant_all zero_fill w1 = Ret tt w2 /\ buf w2 = buf w1) /\
  (exists w1,
     s_shift_left grant_all zero_fill (world_of (holding ABCD 3 0) []) = Ret tt w1 /\
     content (buf w1) = [x44] /\
     forall w2, s_shift_left grant_all zero_fill w1 <> Ret tt w2).
Proof.
  assert (Hwf1 : wf (buf (world_of (holding ABCD 1 0) [])))
    by (constructor; cbn; u32_lia).
  assert (Hwf0 : wf (buf (world_of (holding ABCD 0 0) [])))
    by (constructor; cbn; u32_lia).
  assert (Hwf3 : wf (buf (world_of (holding ABCD 3 0) [])))
    by (constructor; cbn; u32_lia).
  assert (H14 : 1 <= 4) by lia.
  assert (H04 : 0 <= 4) by lia.
  assert (H34 : 3 <= 4) by lia.
  assert (H01 : 0 < 1) by lia.
  assert (H24 : 2 * 1 <= 4) by lia.
  assert (H46 : 4 < 2 * 3) by lia.
  split; [split; [exact Hwf1|]|split].
  - destruct (s_shift_left_content grant_all zero_fill
                (world_of (holding ABCD 1 0) []) Hwf1 H14 (fun _ => eq_refl))
      as (w1 & E1 & C1 & _ & _ & _ & Hdrop & _).
    destruct (Hdrop H01 H24 (fun _ => eq_refl)) as (w2 & E2 & C2 & _ & _ & N2).
    exists w1, w2. split_and; assumption.
  - destruct (s_shift_left_content grant_all zero_fill
                (world_of (holding ABCD 0 0) []) Hwf0 H04 (fun _ => eq_refl))
      as (w1 & E1 & C1 & _ & _ & Hnoop & _).
    destruct (Hnoop eq_refl) as (w2 & E2 & B2 & _).
    exists w1, w2. split_and; assumption.
  - destruct (s_shift_left_content grant_all zero_fill
                (world_of (holding ABCD 3 0) []) Hwf3 H34 (fun _ => eq_refl))
      as (w1 & E1 & C1 & _ & _ & _ & _ & Hnever).
    exists w1. split_and; [exact E1|exact C1|exact (Hnever H46)].
Defined.

(** C7, counterexample: an append of one byte to a buffer with [size = 4]
    and the cursor at 0 leaves the cursor at 1, not at 5. *)
Lemma s_append_moves_pos_by_len :
  let w := world_of (holding WXYZ 0 0) [] in
  size (buf w) = 4 /\
  exists w',
    s_append grant_all zero_fill [x41] 1 w = Ret tt w' /\
    size (buf w') = 5 /\ pos (buf w') = 1 /\ pos (buf w') <> 4 + 1.
Proof.
  cbv zeta. split; [reflexivity|].
  eexists. split; [lazy; reflexivity|]. cbn. split_and; try reflexivity.
  discriminate.
Qed.

(** C7, witness: the same call. *)
Lemma s_append_correct_witness :
  let w := world_of (holding WXYZ 0 0) [] in
  wf (buf w) /\
  exists w', s_append grant_all zero_fill [x41] (blen [x41]) w = Ret tt w'.
Proof.
  cbv zeta.
  assert (Hwf : wf (buf (world_of (holding WXYZ 0 0) [])))
    by (constructor; cbn; u32_lia).
  split; [exact Hwf|].
  apply (s_append_correct grant_all zero_fill
           (world_of (holding WXYZ 0 0) []) [x41] Hwf).
  - cbn. unfold U32_MOD. lia.
  - reflexivity.
Defined.

(** The typed reads away from the wrap, at a concrete buffer: a 32-bit read
    of ["WXYZ"] at the cursor 0. *)
Lemma s_get_bang_bounded_witness :
  let w := world_of (holding WXYZ 0 0) [] in
  0 < 16 /\ wf (buf w) /\ Bounded 2 (buf w) /\
  s_get_bang grant_all zero_fill 2 16 T_u32 w =
    Ret WXYZ (with_buf (set_pos 4 (buf w)) w).
Proof.
  cbv zeta.
  assert (Hld : 0 < 16) by lia.
  assert (Hwf : wf (buf (world_of (holding WXYZ 0 0) [])))
    by (constructor; cbn; u32_lia).
  assert (Hb : Bounded 2 (buf (world_of (holding WXYZ 0 0) []))) by reflexivity.
  split_and; try assumption.
  destruct (s_get_bang_bounded grant_all zero_fill 2 16 T_u32
              (world_of (holding WXYZ 0 0) []) Hld Hwf Hb) as (Hfit & _).
  assert (Hle : 0 + 4 <= 4) by lia.
  destruct (Hfit Hle) as (d & D & E).
  injection D as <-. exact E.
Defined.

(** C9, the code at a cursor that wraps: ["WXYZ"] is appended to the buffer
    [s_create] returns and the cursor shifted by 4294967291, to 4294967295.
    The buffer is well-formed and Bounded and [pos + 4 > size], so the
    32-bit read has nothing to read.  The guard is asked about
    [pos + 3], which is 2 modulo 2^32 and below [size = 4]: it raises
    nothing and returns the pointer [data + 4294967295], and
    [s_get_u32_bang] reads four bytes there, outside the block. *)
Lemma s_get_u32_bang_wraps :
  exists w,
    run grant_all zero_fill 2 16 [Append WXYZ; ShiftCursor 4294967291]
        (world_of created []) = Ret tt w /\
    wf (buf w) /\ Bounded 2 (buf w) /\
    size (buf w) = 4 /\ pos (buf w) = 4294967295 /\
    ~ (pos (buf w) + sizeof 16 T_u32 <= size (buf w)) /\
    s_get_p_at_pos grant_all zero_fill 2 (pos (buf w)) (sizeof 16 T_u32 - 1) w
      = Ret (pos (buf w)) w /\
    load (data (buf w)) (pos (buf w)) (sizeof 16 T_u32) = None /\
    s_get_u32_bang grant_all zero_fill 2 w = Undef /\
    s_get_bang grant_all zero_fill 2 16 T_u32 w = Undef.
Proof.
  eexists. split; [lazy; reflexivity|].
  split_and; try (lazy; reflexivity).
  - constructor; cbn; u32_lia.
  - cbn. lia.
Qed.

(** C10, witness.  The first turn of a fill of an empty buffer to 2 bytes,
    at the end of the stream: the block asked for has [0 - 2] bytes, which
    is 4294967294 as a [u32], and the read into it is made with the count
    2.  A turn of a fill of ["ABCD"] to 6 bytes with ["WXYZ"] ready: a
    block of 2 bytes, a read of 2 bytes into it, and ["WX"] appended.  A
    turn of a fill of ["AB"] to 4 bytes with ["CD"] ready: a block of 0
    bytes and a read of 2 bytes that runs over it. *)
Lemma s_read_stream_scratch_size_witness :
  (let w := world_of (mk_sereal None 0 0 0 2 0 None) [] in
   is_u32 (size (buf w)) /\ is_u32 2 /\ size (buf w) < 2 /\
   u32 (size (buf w) - (2 - size (buf w))) = 4294967294 /\
   s_read_stream_iter grant_all zero_fill 2 w =
     Ret (Some (-1))
         (mk_world (buf w) [] [EvFree; EvRead 2 0; EvAlloc 4294967294])) /\
  (let w := world_of (holding ABCD 0 2) [Ready WXYZ] in
   wf (buf w) /\
   exists w' later,
     s_read_stream_iter grant_all zero_fill 6 w = Ret None w' /\
     content (buf w') = ABCD ++ [x57; x58] /\
     trace w' = later ++ [EvRead 2 2; EvAlloc 2]) /\
  (let w := world_of (holding [x41; x42] 0 2) [Ready [x43; x44]] in
   s_read_stream_iter grant_all zero_fill 4 w = Undef).
Proof.
  cbv zeta. split; [|split].
  - assert (H1 : is_u32 0) by u32_lia.
    assert (H2 : is_u32 2) by u32_lia.
    assert (H3 : 0 < 2) by lia.
    pose proof (s_read_stream_scratch_size grant_all zero_fill 2
                  (world_of (mk_sereal None 0 0 0 2 0 None) []) H1 H2 H3) as T.
    cbv zeta in T.
    destruct T as (_ & _ & _ & Hwrap & _ & Hread).
    destruct (Hread eq_refl) as (Heof & _).
    split_and; try assumption.
    + exact (Hwrap H3).
    + exact (Heof eq_refl).
  - assert (Hwf : wf (buf (world_of (holding ABCD 0 2) [Ready WXYZ])))
      by (constructor; cbn; u32_lia).
    assert (H1 : is_u32 4) by u32_lia.
    assert (H2 : is_u32 6) by u32_lia.
    assert (H3 : 4 < 6) by lia.
    assert (Hk : 0 < 2 <= 2) by lia.
    assert (Hfit : 4 + 2 + 512 < U32_MOD) by u32_lia.
    split; [exact Hwf|].
    pose proof (s_read_stream_scratch_size grant_all zero_fill 6
                  (world_of (holding ABCD 0 2) [Ready WXYZ]) H1 H2 H3) as T.
    cbv zeta in T.
    destruct T as (_ & _ & _ & _ & _ & Hread).
    destruct (Hread eq_refl) as (_ & _ & Hready).
    destruct (Hready WXYZ [] eq_refl) as (_ & Hfits).
    destruct (Hfits Hk Hwf Hfit eq_refl) as (w' & later & E & C & _ & T).
    exists w', later. split_and; assumption.
  - assert (H1 : is_u32 2) by u32_lia.
    assert (H2 : is_u32 4) by u32_lia.
    assert (H3 : 2 < 4) by lia.
    assert (Hover : 0 < 2) by lia.
    pose proof (s_read_stream_scratch_size grant_all zero_fill 4
                  (world_of (holding [x41; x42] 0 2) [Ready [x43; x44]])
                  H1 H2 H3) as T.
    cbv zeta in T.
    destruct T as (_ & _ & _ & _ & _ & Hread).
    destruct (Hread eq_refl) as (_ & _ & Hready).
    destruct (Hready [x43; x44] [] eq_refl) as (Hruns & _).
    exact (Hruns Hover).
Defined.

(** C3, the code at a request that wraps: on a Bounded buffer of 2 bytes,
    a request for 4294967295 bytes at offset 1 has [offset + length] equal
    to 0 modulo 2^32, passes the guard and is answered with the pointer to
    [data[1]], through which that many bytes cannot be read. *)
Lemma s_get_p_at_pos_wraps :
  let w := world_of (holding [x57; x58] 0 0) [] in
  Bounded 2 (buf w) /\ wf (buf w) /\
  is_u32 1 /\ is_u32 4294967295 /\
  size (buf w) <= 1 + 4294967295 /\
  s_get_p_at_pos grant_all zero_fill 2 1 4294967295 w = Ret 1 w /\
  load (data (buf w)) 1 4294967295 = None.
Proof.
  cbv zeta. split_and; try reflexivity; try u32_lia.
  - constructor; cbn; u32_lia.
  - cbn. lia.
Qed.

(** C4, the code at a fill that aborts after a first turn: a Streaming
    buffer with ["WXYZ"] and the cursor at 0 is filled to 6 bytes from a
    stream that has one byte and then ends; [s_read_stream] returns [-1]
    with the byte appended and the cursor at 1. *)
Lemma s_read_stream_abort_leaves_pos :
  let w := world_of (holding WXYZ 0 2) [Ready [x41]] in
  Streaming 2 (buf w) /\ wf (buf w) /\ pos (buf w) = 0 /\
  exists w',
    s_read_stream grant_all zero_fill 6 w = Ret (-1) w' /\
    content (buf w') = WXYZ ++ [x41] /\
    size (buf w') = 5 /\
    pos (buf w') = 1 /\ pos (buf w') <> pos (buf w).
Proof.
  cbv zeta. split_and; try reflexivity.
  - cbn. discriminate.
  - constructor; cbn; u32_lia.
  - eexists. split; [lazy; reflexivity|].
    cbn. split_and; try reflexivity. discriminate.
Qed.

(** * The further properties on concrete buffers *)

(** X1, witness: a request for one more byte on a full block of four. *)
Lemma s_alloc_keeps_content_witness :
  let w := world_of (holding WXYZ 0 0) [] in
  wf (buf w) /\
  exists w',
    s_alloc grant_all zero_fill 1 w = Ret tt w' /\
    content (buf w') = WXYZ /\ rsize (buf w') = 517.
Proof.
  cbv zeta.
  assert (Hwf : wf (buf (world_of (holding WXYZ 0 0) [])))
    by (constructor; cbn; u32_lia).
  split; [exact Hwf|].
  eexists. split; [lazy; reflexivity|]. split; [|reflexivity].
  refine (proj1 (s_alloc_keeps_content grant_all zero_fill
                   (world_of (holding WXYZ 0 0) []) _ 1 Hwf _ _ _));
    [lia | cbn; u32_lia | lazy; reflexivity].
Defined.

(** X2, witness: ["ABCD"] and then ["WXYZ"] appended to the buffer
    [s_create] returns. *)
Lemma s_append_app_witness :
  wf (buf (world_of created [])) /\
  exists w1 w2,
    s_append grant_all zero_fill ABCD (blen ABCD) (world_of created []) = Ret tt w1 /\
    s_append grant_all zero_fill WXYZ (blen WXYZ) w1 = Ret tt w2 /\
    content (buf w2) = content (buf (world_of created [])) ++ ABCD ++ WXYZ.
Proof.
  assert (Hwf : wf (buf (world_of created []))) by (constructor; cbn; u32_lia).
  split; [exact Hwf|].
  assert (H1 : exists w1,
            s_append grant_all zero_fill ABCD (blen ABCD) (world_of created [])
              = Ret tt w1)
    by (eexists; lazy; reflexivity).
  destruct H1 as (w1 & E1).
  assert (H2 : exists w2, s_append grant_all zero_fill WXYZ (blen WXYZ) w1 = Ret tt w2).
  { apply s_append_returns.
    - exact (proj1 (proj2 (s_append_ret _ _ _ _ _ _ Hwf E1))).
    - cbn. lia.
    - rewrite (proj1 (proj2 (proj2 (s_append_ret _ _ _ _ _ _ Hwf E1)))).
      cbn. u32_lia.
    - reflexivity. }
  destruct H2 as (w2 & E2).
  exists w1, w2. split; [exact E1|]. split; [exact E2|].
  exact (proj1 (s_append_app grant_all zero_fill _ _ _ ABCD WXYZ Hwf E1 E2)).
Defined.

(** X3, witness: the first append to the buffer [s_create] returns grows
    it to 516 bytes; the two appends that follow ask nothing of the
    allocator. *)
Lemma s_append_slack_witness :
  wf (buf (world_of created [])) /\ blen (concat [WXYZ; ABCD]) < 512 /\
  exists w1 w2,
    s_append grant_all zero_fill ABCD (blen ABCD) (world_of created []) = Ret tt w1 /\
    trace w1 = [EvAlloc 516] /\
    run grant_all zero_fill 2 16 [Append WXYZ; Append ABCD] w1 = Ret tt w2 /\
    trace w2 = trace w1 /\
    content (buf w2) = content (buf w1) ++ WXYZ ++ ABCD.
Proof.
  assert (Hwf : wf (buf (world_of created []))) by (constructor; cbn; u32_lia).
  assert (Hb : blen (concat [WXYZ; ABCD]) < 512) by (cbn; lia).
  split; [exact Hwf|]. split; [exact Hb|].
  assert (H1 : exists w1,
            s_append grant_all zero_fill ABCD (blen ABCD) (world_of created [])
              = Ret tt w1 /\ trace w1 = [EvAlloc 516])
    by (eexists; split; lazy; reflexivity).
  destruct H1 as (w1 & E1 & T1).
  destruct (s_append_slack grant_all zero_fill 2 16 _ w1 ABCD 516
              [WXYZ; ABCD] Hwf E1 T1 Hb)
    as (w2 & E2 & T2 & _ & C2).
  exists w1, w2. split_and; assumption.
Defined.

(** X4, witness: ["ABCD"] appended to ["WXYZ"] and read back as a
    [u32]. *)
Lemma append_shift_read_roundtrip_witness :
  let w := world_of (holding WXYZ 4 0) [] in
  0 < 16 /\ wf (buf w) /\ Bounded 2 (buf w) /\ pos (buf w) = size (buf w) /\
  exists w3,
    (s_append grant_all zero_fill ABCD 4 ;;;
     s_shift_position_bang (U32_MOD - 4) ;;;
     s_get_bang grant_all zero_fill 2 16 T_u32) w = Ret ABCD w3.
Proof.
  cbv zeta.
  assert (Hld : 0 < 16) by lia.
  assert (Hwf : wf (buf (world_of (holding WXYZ 4 0) [])))
    by (constructor; cbn; u32_lia).
  assert (Hfit : 4 + 4 + 512 < U32_MOD) by u32_lia.
  split_and; try assumption; try reflexivity.
  destruct (append_shift_read_roundtrip grant_all zero_fill 2 16 T_u32 ABCD
              (world_of (holding WXYZ 4 0) []) Hld Hwf eq_refl eq_refl eq_refl
              Hfit eq_refl) as (w3 & E & _).
  exists w3. exact E.
Defined.

(** X5, witness: the byte ["A"] and the number 1, on a little-endian
    platform. *)
Lemma typed_write_read_roundtrip_witness :
  let w := world_of (holding WXYZ 4 0) [] in
  wf (buf w) /\ blen (le32 1) = 4 /\
  (exists w3,
     (s_append_u8 grant_all zero_fill x41 ;;;
      s_shift_position_bang (U32_MOD - 1) ;;;
      s_get_u8_bang grant_all zero_fill 2) w = Ret x41 w3) /\
  (exists w3,
     (s_append_u32 grant_all zero_fill le32 1 ;;;
      s_shift_position_bang (U32_MOD - 4) ;;;
      s_get_u32_bang grant_all zero_fill 2) w = Ret [x01; x00; x00; x00] w3).
Proof.
  cbv zeta.
  assert (Hld : 0 < 16) by lia.
  assert (Hwf : wf (buf (world_of (holding WXYZ 4 0) [])))
    by (constructor; cbn; u32_lia).
  assert (Hfit : 4 + 4 + 512 < U32_MOD) by u32_lia.
  split; [exact Hwf|]. split; [reflexivity|].
  destruct (typed_write_read_roundtrip grant_all zero_fill 2 16 le32
              (world_of (holding WXYZ 4 0) []) x41 1 Hld Hwf eq_refl eq_refl
              eq_refl Hfit (fun _ => eq_refl))
    as ((w3 & E3 & _) & (w3' & E3' & _)).
  split; [exists w3; exact E3|exists w3'; exact E3'].
Defined.

(** X6, witness: the last byte of ["WXYZ"]. *)
Lemma s_end_p_last_byte_witness :
  let w := world_of (holding WXYZ 0 0) [] in
  wf (buf w) /\ Bounded 2 (buf w) /\
  s_end_p grant_all zero_fill 2 w = Ret 3 w /\
  load (data (buf w)) 3 1 = Some [x5a].
Proof.
  cbv zeta.
  assert (Hwf : wf (buf (world_of (holding WXYZ 0 0) [])))
    by (constructor; cbn; u32_lia).
  assert (Hne : 0 < 4) by lia.
  split; [exact Hwf|]. split; [reflexivity|].
  exact (proj1 (s_end_p_last_byte grant_all zero_fill 2
                  (world_of (holding WXYZ 0 0) []) Hwf eq_refl) Hne).
Defined.

(** X7, witness: three bytes from the cursor 1 of ["WXYZ"]. *)
Lemma s_get_p_req_inclusive_bounded_witness :
  let w := world_of (holding WXYZ 1 0) [] in
  wf (buf w) /\ Bounded 2 (buf w) /\
  s_get_p_req_inclusive grant_all zero_fill 2 3 w = Ret 1 w /\
  load (data (buf w)) 1 3 = Some [x58; x59; x5a].
Proof.
  cbv zeta.
  assert (Hwf : wf (buf (world_of (holding WXYZ 1 0) [])))
    by (constructor; cbn; u32_lia).
  assert (Hreq : 0 < 3) by lia.
  assert (Hfit : 1 + 3 <= U32_MOD) by u32_lia.
  assert (Hin : 1 + 3 <= 4) by lia.
  split; [exact Hwf|]. split; [reflexivity|].
  exact (proj1 (s_get_p_req_inclusive_bounded grant_all zero_fill 2
                  (world_of (holding WXYZ 1 0) []) 3 Hwf eq_refl Hreq Hfit) Hin).
Defined.

(** X8, witness: a peek at the cursor 1 of ["WXYZ"]. *)
Lemma s_get_u8_peeks_witness :
  let w := world_of (holding WXYZ 1 0) [] in
  wf (buf w) /\ Bounded 2 (buf w) /\
  exists x, s_get_u8 grant_all zero_fill 2 w = Ret x w /\ [x58] = [x].
Proof.
  cbv zeta.
  assert (Hwf : wf (buf (world_of (holding WXYZ 1 0) [])))
    by (constructor; cbn; u32_lia).
  assert (Hin : 1 < 4) by lia.
  split; [exact Hwf|]. split; [reflexivity|].
  destruct (proj1 (s_get_u8_peeks grant_all zero_fill 2
                     (world_of (holding WXYZ 1 0) []) Hwf eq_refl) Hin)
    as (x & Hx & E & _).
  exists x. split; [exact E|exact Hx].
Defined.

(** X9, witness: one byte at offset 0 of ["WXYZ"] with the cursor at 2. *)
Lemma s_get_p_at_pos_bang_advances_witness :
  let w := world_of (holding WXYZ 2 0) [] in
  wf (buf w) /\ Bounded 2 (buf w) /\
  s_get_p_at_pos_bang grant_all zero_fill 2 0 1 w =
    Ret 0 (with_buf (set_pos 3 (buf w)) w).
Proof.
  cbv zeta.
  assert (Hwf : wf (buf (world_of (holding WXYZ 2 0) [])))
    by (constructor; cbn; u32_lia).
  assert (H0 : 0 <= 0) by lia.
  assert (H1 : 0 <= 1) by lia.
  assert (Hfit : 0 + 1 < U32_MOD) by u32_lia.
  assert (Hin : 0 + 1 < 4) by lia.
  split; [exact Hwf|]. split; [reflexivity|].
  exact (proj1 (proj1 (s_get_p_at_pos_bang_advances grant_all zero_fill 2 0 1
                         (world_of (holding WXYZ 2 0) []) Hwf eq_refl H0 H1 Hfit)
                  Hin)).
Defined.

(** X10, witness: ["WXYZ"] with the cursor at 5. *)
Lemma s_shift_left_cursor_beyond_witness :
  let w := world_of (partly WXYZ 4 5 0) [] in
  wf (buf w) /\ size (buf w) < pos (buf w) /\
  s_shift_left grant_all zero_fill w = Undef.
Proof.
  cbv zeta.
  assert (Hwf : wf (buf (world_of (partly WXYZ 4 5 0) [])))
    by (constructor; cbn; u32_lia).
  assert (Hb : 4 < 5) by lia.
  split; [exact Hwf|]. split; [exact Hb|].
  exact (proj1 (proj2 (s_shift_left_cursor_beyond grant_all zero_fill
                         (world_of (partly WXYZ 4 5 0) []) Hwf Hb)) eq_refl).
Defined.

(** X11, witness: a Borrowed buffer, with [FLAG_NOT_MINE = 1]. *)
Lemma s_free_data_if_not_mine_once_witness :
  let w := world_of (holding WXYZ 0 1) [] in
  Borrowed 1 (buf w) /\ s_free_data_if_not_mine 1 w = Ret tt w.
Proof.
  cbv zeta.
  assert (Hb : Borrowed 1 (buf (world_of (holding WXYZ 0 1) [])))
    by (unfold Borrowed; cbn; discriminate).
  split; [exact Hb|].
  exact (proj1 (s_free_data_if_not_mine_once 1
                  (world_of (holding WXYZ 0 1) [])) Hb).
Defined.

(** X12, witness: ["ABCD"] filled to 6 bytes from a stream with ["WXYZ"]
    ready. *)
Lemma s_read_stream_takes_stream_prefix_witness :
  let w := world_of (holding ABCD 0 2) [Ready WXYZ] in
  wf (buf w) /\
  exists w' bs,
    s_read_stream grant_all zero_fill 6 w = Ret 1 w' /\
    content (buf w') = content (buf w) ++ bs /\
    ready_bytes (input w) = bs ++ ready_bytes (input w').
Proof.
  cbv zeta.
  assert (Hwf : wf (buf (world_of (holding ABCD 0 2) [Ready WXYZ])))
    by (constructor; cbn; u32_lia).
  split; [exact Hwf|].
  assert (H : exists w',
            s_read_stream grant_all zero_fill 6
              (world_of (holding ABCD 0 2) [Ready WXYZ]) = Ret 1 w')
    by (eexists; lazy; reflexivity).
  destruct H as (w' & E).
  destruct (proj1 (s_read_stream_takes_stream_prefix grant_all zero_fill 6
                     (world_of (holding ABCD 0 2) [Ready WXYZ])) Hwf 1 w' E)
    as (bs & C & R & _).
  exists w', bs. auto.
Defined.

(** X13, witness: a peek at offset 0 of ["WXYZ"] with the cursor at 2. *)
Lemma s_get_p_at_pos_keeps_cursor_witness :
  let w := world_of (holding WXYZ 2 0) [] in
  wf (buf w) /\
  exists w', s_get_p_at_pos grant_all zero_fill 2 0 1 w = Ret 0 w' /\
             pos (buf w') = pos (buf w).
Proof.
  cbv zeta.
  assert (Hwf : wf (buf (world_of (holding WXYZ 2 0) [])))
    by (constructor; cbn; u32_lia).
  split; [exact Hwf|].
  eexists. split; [lazy; reflexivity|].
  refine (proj1 (proj2 (s_get_p_at_pos_keeps_cursor grant_all zero_fill 2 0 1
                          (world_of (holding WXYZ 2 0) []) _ 0 Hwf _))).
  lazy. reflexivity.
Defined.

(** X14, witness: a byte read at the end of ["ABCD"] on a Streaming buffer
    with ["WXYZ"] ready. *)
Lemma s_get_bang_reads_at_cursor_witness :
  let w := world_of (holding ABCD 4 2) [Ready WXYZ] in
  0 < 16 /\ wf (buf w) /\
  exists v w',
    s_get_bang grant_all zero_fill 2 16 T_u8 w = Ret v w' /\
    v = slice (content (buf w')) (pos (buf w)) 1 /\
    pos (buf w') = pos (buf w) + 1.
Proof.
  cbv zeta.
  assert (Hld : 0 < 16) by lia.
  assert (Hwf : wf (buf (world_of (holding ABCD 4 2) [Ready WXYZ])))
    by (constructor; cbn; u32_lia).
  split; [exact Hld|]. split; [exact Hwf|].
  assert (H : exists v w',
            s_get_bang grant_all zero_fill 2 16 T_u8
              (world_of (holding ABCD 4 2) [Ready WXYZ]) = Ret v w')
    by (do 2 eexists; lazy; reflexivity).
  destruct H as (v & w' & E).
  destruct (s_get_bang_reads_at_cursor grant_all zero_fill 2 16 T_u8
              _ w' v Hld Hwf E) as (Hv & _ & P & _).
  exists v, w'. auto.
Defined.

(** X15, witness: ["ABCD"] filled to 6 bytes. *)
Lemma s_read_stream_safe_zone_witness :
  let w := world_of (holding ABCD 0 2) [Ready WXYZ] in
  wf (buf w) /\ 6 + 512 < U32_MOD /\ 2 * (6 - size (buf w)) <= size (buf w) /\
  exists rv w', s_read_stream grant_all zero_fill 6 w = Ret rv w'.
Proof.
  cbv zeta.
  assert (Hwf : wf (buf (world_of (holding ABCD 0 2) [Ready WXYZ])))
    by (constructor; cbn; u32_lia).
  assert (Hend : 6 + 512 < U32_MOD) by u32_lia.
  assert (Hhalf : 2 * (6 - 4) <= 4) by lia.
  split_and; try assumption.
  destruct (s_read_stream_safe_zone grant_all zero_fill 6
              (world_of (holding ABCD 0 2) [Ready WXYZ]) Hwf
              (fun _ _ => eq_refl) Hend Hhalf) as (rv & w' & E & _).
  exists rv, w'. exact E.
Defined.

(** X16, witness: the same fill, satisfied by its first read. *)
Lemma s_read_stream_one_read_witness :
  let w := world_of (holding ABCD 0 2) [Ready WXYZ] in
  wf (buf w) /\
  exists w',
    s_read_stream grant_all zero_fill 6 w = Ret 1 w' /\
    content (buf w') = ABCD ++ [x57; x58] /\
    ready_bytes (input w') = [x59; x5a].
Proof.
  cbv zeta.
  assert (Hwf : wf (buf (world_of (holding ABCD 0 2) [Ready WXYZ])))
    by (constructor; cbn; u32_lia).
  assert (Hend : 6 + 512 < U32_MOD) by u32_lia.
  assert (Hlt : 4 < 6) by lia.
  assert (Hhalf : 2 * (6 - 4) <= 4) by lia.
  assert (Hmax : 6 - 4 <= READ_MAX) by (unfold READ_MAX; lia).
  assert (Hcs : 6 - 4 <= 4) by lia.
  split; [exact Hwf|].
  destruct (s_read_stream_one_read grant_all zero_fill 6
              (world_of (holding ABCD 0 2) [Ready WXYZ]) WXYZ [] Hwf
              (fun _ _ => eq_refl) Hend Hlt Hhalf Hmax eq_refl Hcs)
    as (w' & E & C & _ & _ & R).
  exists w'. split_and; assumption.
Defined.
